(** * CML Transcriptie Tool: the phased pipeline of [transcribe.py]

    A shallow embedding of the progress display, the media helpers and the
    run controller of [src/transcribe.py], and the properties the
    specification states about them.

    Numbers.  The Python code computes percentages, durations and sizes on
    binary64 floats.  They are modelled here as exact rationals ([Q]): every
    constant of the source (0, 5, 10, 15, 70, 90, 100, 40, 3600, 60, 500,
    1024*1024) is an integer, and the theorems are about the exact values of
    the formulas; rounding of individual float operations is not modelled.
    [int(x)] is truncation towards zero, [//] and [%] are floor division and
    its remainder, and the [:6.2f]-style formats round half-to-even.

    Text.  [str] values are [string]s of bytes; [\d] is an ASCII digit.

    Effects.  [sys.stdout], the terminal, the temporary directory and the
    outcome of every external call (ffprobe, ffmpeg, whisperx, python-docx,
    the file system) are explicit: the external world is a record [Env] of
    outcomes, the mutable state is a record [World], and the code runs in a
    state-and-exception monad [M]. *)

From Stdlib Require Import ZArith QArith Qround Lqa Ascii String List Lia.
From stdpp Require Import base decidable strings pretty gmap.

Import ListNotations.
Local Open Scope string_scope.
Local Open Scope list_scope.
Local Open Scope Z_scope.

(** ** Numbers the way Python computes them *)

Module PyNum.

(** [int(x)] for a float [x]: truncation towards zero. *)
Definition py_int (x : Q) : Z := Z.quot (Qnum x) (Z.pos (Qden x)).

(** [x // y] on floats. *)
Definition floordiv (x y : Q) : Q := inject_Z (Qfloor (x / y)).

(** [x % y] on floats (the remainder of floor division). *)
Definition pymod (x y : Q) : Q := (x - floordiv x y * y)%Q.

(** [min(x, y)]: Python returns the first argument unless the second is
    strictly smaller. *)
Definition py_min (x y : Q) : Q := if Qlt_le_dec y x then y else x.

(** Rounding to the nearest integer, ties to even: the rounding of
    [format(x, '.nf')]. *)
Definition round_half_even (x : Q) : Z :=
  let f := Qfloor x in
  let r := (x - inject_Z f)%Q in
  match (r ?= 1 # 2)%Q with
  | Lt => f
  | Gt => f + 1
  | Eq => if Z.even f then f else f + 1
  end.

Definition Qltb (x y : Q) : bool :=
  match (x ?= y)%Q with Lt => true | _ => false end.

End PyNum.

Import PyNum.

(** ** Text helpers: [str * int], [str(int)], format specifications *)

Module PyStr.

Fixpoint repeat_str (s : string) (n : nat) : string :=
  match n with
  | O => ""
  | S k => s +:+ repeat_str s k
  end.

(** [s * n]: the empty string when [n] is not positive. *)
Definition str_mul (s : string) (n : Z) : string := repeat_str s (Z.to_nat n).

(** [str(n)]. *)
Definition str_int (n : Z) : string := pretty n.

Definition pad_left (c : string) (width : nat) (s : string) : string :=
  repeat_str c (width - String.length s) +:+ s.

(** [f"{n:02d}"]: zeros go between the sign and the digits. *)
Definition fmt_02d (n : Z) : string :=
  if n <? 0 then "-" +:+ pad_left "0" 1 (str_int (- n))
  else pad_left "0" 2 (str_int n).

(** [f"{x:W.Df}"]: [D] decimals, rounded half-to-even, right-aligned in
    [W] columns.  A negative [x] keeps its sign even when it rounds to
    zero. *)
Definition fmt_f (width digits : nat) (x : Q) : string :=
  let scale := 10 ^ Z.of_nat digits in
  let n := Z.abs (round_half_even (x * inject_Z scale)) in
  let body :=
    match digits with
    | O => str_int n
    | _ => str_int (n / scale) +:+ "." +:+ pad_left "0" digits (str_int (n mod scale))
    end in
  pad_left " " width ((if Qltb x 0 then "-" else "") +:+ body).

Definition is_digit (c : ascii) : bool :=
  let n := N_of_ascii c in ((48 <=? n) && (n <=? 57))%N.

Definition digit_val (c : ascii) : Z := Z.of_N (N_of_ascii c) - 48.

(** The longest prefix of digits and what follows it: a greedy [\d*]. *)
Fixpoint span_digits (s : string) : string * string :=
  match s with
  | String c r =>
      if is_digit c then let (d, t) := span_digits r in (String c d, t)
      else ("", s)
  | "" => ("", "")
  end.

(** [int(s)] for a string of digits. *)
Definition int_of_digits (s : string) : Z :=
  fold_left (fun acc c => 10 * acc + digit_val c) (list_ascii_of_string s) 0.

(** The rest of [s] after the character [c], if [s] starts with it. *)
Definition expect (c : ascii) (s : string) : option string :=
  match s with
  | String a r => if Ascii.eqb a c then Some r else None
  | "" => None
  end.

(** [float(s)] for [s] of the shape digits, optional dot, digits. *)
Definition float_of_decimal (s : string) : Q :=
  let (ip, r) := span_digits s in
  match expect "." r with
  | Some fp =>
      (inject_Z (int_of_digits (ip +:+ fp)) / inject_Z (10 ^ Z.of_nat (String.length fp)))%Q
  | None => inject_Z (int_of_digits ip)
  end.

Fixpoint strip_prefix (p s : string) : option string :=
  match p, s with
  | "", _ => Some s
  | String a p', String b s' => if Ascii.eqb a b then strip_prefix p' s' else None
  | String _ _, "" => None
  end.

End PyStr.

Import PyStr.

(** ** The two regular expressions of the source *)

Module Regex.

(** The pattern of [ProgressCapture.write] (one or more digits, an optional
    dot, any number of digits, all captured as group 1, then a percent
    sign) anchored at the start of [s]; the result is group 1.
    The greedy choices are the only ones that can succeed: a shorter digit
    run is followed by a digit or a dot, never by [%]. *)
Definition match_pct_at (s : string) : option string :=
  let (d1, r1) := span_digits s in
  match d1 with
  | "" => None
  | _ =>
      let (dot, r2) :=
        match expect "." r1 with
        | Some r => (".", r)
        | None => ("", r1)
        end in
      let (d2, r3) := span_digits r2 in
      match expect "%" r3 with
      | Some _ => Some (d1 +:+ dot +:+ d2)
      | None => None
      end
  end.

(** [re.search] with that pattern: the leftmost match. *)
Fixpoint search_pct (s : string) : option string :=
  match match_pct_at s, s with
  | Some g, _ => Some g
  | None, String _ r => search_pct r
  | None, "" => None
  end.

(** [time=(\d+):(\d+):(\d+\.\d+)] anchored at the start of [s]. *)
Definition match_time_at (s : string) : option (string * string * string) :=
  match strip_prefix "time=" s with
  | None => None
  | Some r0 =>
      let (h, r1) := span_digits r0 in
      match h, expect ":" r1 with
      | String _ _, Some r1' =>
          let (m, r2) := span_digits r1' in
          match m, expect ":" r2 with
          | String _ _, Some r2' =>
              let (s1, r3) := span_digits r2' in
              match s1, expect "." r3 with
              | String _ _, Some r3' =>
                  let (s2, _) := span_digits r3' in
                  match s2 with
                  | String _ _ => Some (h, m, s1 +:+ "." +:+ s2)
                  | "" => None
                  end
              | _, _ => None
              end
          | _, _ => None
          end
      | _, _ => None
      end
  end.

(** [re.search(r'time=(\d+):(\d+):(\d+\.\d+)', line)]. *)
Fixpoint search_time (s : string) : option (string * string * string) :=
  match match_time_at s, s with
  | Some g, _ => Some g
  | None, String _ r => search_time r
  | None, "" => None
  end.

End Regex.

Import Regex.

(** ** Exceptions, output streams and the mutable state *)

(** The part of Python's exception hierarchy the code distinguishes:
    [except Exception] catches [PyException] only; [KeyboardInterrupt] and
    the other direct children of [BaseException] (such as [SystemExit]) are
    not instances of [Exception]. *)
Inductive exn : Type :=
| PyException (msg : string)
| PyKeyboardInterrupt
| PyBaseException (msg : string).

Definition is_Exception (e : exn) : bool :=
  match e with
  | PyException _ => true
  | _ => false
  end.

Definition exn_str (e : exn) : string :=
  match e with
  | PyException m => m
  | PyKeyboardInterrupt => ""
  | PyBaseException m => m
  end.

(** A value a file-like object can point to: the terminal, or a
    [ProgressCapture] standing in for it. *)
Inductive stream : Type :=
| Terminal
| Redirected (pc : ProgressCapture)
with ProgressCapture : Type :=
| mkProgressCapture (phase_name : string) (phase_start phase_end : Q)
                    (original_stdout : stream).

Scheme stream_mut := Induction for stream Sort Prop
  with ProgressCapture_mut := Induction for ProgressCapture Sort Prop.

Definition phase_name (pc : ProgressCapture) : string :=
  match pc with mkProgressCapture n _ _ _ => n end.
Definition phase_start (pc : ProgressCapture) : Q :=
  match pc with mkProgressCapture _ s _ _ => s end.
Definition phase_end (pc : ProgressCapture) : Q :=
  match pc with mkProgressCapture _ _ e _ => e end.
Definition original_stdout (pc : ProgressCapture) : stream :=
  match pc with mkProgressCapture _ _ _ o => o end.

Definition CR : string := String (ascii_of_nat 13) "".
Definition LF : string := String (ascii_of_nat 10) "".

(** What reaches a stream in one [write] call: a progress bar line (the
    label and the global percentage it shows) or any other text. *)
Inductive out : Type :=
| Bar (label : string) (pct : Q)
| Text (s : string).

Definition bar_width : Z := 40.

(** The 40-column bar of [_render_bar] and [print_progress_bar]. *)
Definition bar_of (pct : Q) : string :=
  let filled := py_int (inject_Z bar_width * pct / 100) in
  if filled <? bar_width
  then str_mul "=" filled +:+ ">" +:+ str_mul " " (bar_width - filled - 1)
  else str_mul "=" bar_width.

(** The characters written: [f'\r  {label}: [{bar}] {pct:6.2f}%']. *)
Definition out_string (o : out) : string :=
  match o with
  | Bar label pct =>
      CR +:+ "  " +:+ label +:+ ": [" +:+ bar_of pct +:+ "] " +:+ fmt_f 6 2 pct +:+ "%"
  | Text s => s
  end.

(** The global percentage of [ProgressCapture.write]. *)
Definition overall_pct (s e local_pct : Q) : Q :=
  (s + (local_pct / 100) * (e - s))%Q.

(** [st.write(o)]: the terminal records what it is given;
    [ProgressCapture.write] searches the text for a percentage and, on a
    match, has [_render_bar] write a bar to its [original_stdout]; text
    without a match is dropped. *)
Fixpoint stream_write (st : stream) (o : out) (term : list out) : list out :=
  match st with
  | Terminal => term ++ [o]
  | Redirected (mkProgressCapture name s e orig) =>
      match search_pct (out_string o) with
      | Some g =>
          let local_pct := float_of_decimal g in
          stream_write orig (Bar name (overall_pct s e local_pct)) term
      | None => term
      end
  end.

Record Segment : Type := mkSegment {
  seg_start : Q;
  seg_end : Q;
  seg_text : string
}.

Record Metadata : Type := mkMetadata {
  md_title : string;
  md_filename : string;
  md_duration_str : string;
  md_model : string;
  md_language : string
}.

(** Calls that leave the program, in the order they are made. *)
Inductive call : Type :=
| CallFfprobe (path : string)
| CallFfmpegConvert (src dst : string)
| CallFfmpegCompress (src dst : string)
| CallLoadModel (model_size language : string)
| CallLoadAudio (path : string)
| CallTranscribe
| CallLoadAlignModel (language : string)
| CallAlign (segments : list Segment)
| CallExport (segments : list Segment) (md : Metadata) (path : string)
| CallOpenFinder (path : string)
| CallRmtree (dir : string).

Record World : Type := mkWorld {
  sys_stdout : stream;          (* the object [sys.stdout] is bound to *)
  terminal : list out;          (* what the terminal has received *)
  stderr : list string;         (* what [sys.stderr] has received *)
  workspace : option string;    (* the temporary directory, while it exists *)
  calls : list call             (* external calls made so far *)
}.

Definition initial_world : World :=
  {| sys_stdout := Terminal; terminal := []; stderr := [];
     workspace := None; calls := [] |}.

(** ** The state-and-exception monad the code runs in *)

Inductive outcome (A : Type) : Type :=
| Ret (a : A)
| Raise (e : exn).
Arguments Ret {A} a.
Arguments Raise {A} e.

Definition M (A : Type) : Type := World -> outcome A * World.

Definition ret {A} (a : A) : M A := fun w => (Ret a, w).
Definition raise {A} (e : exn) : M A := fun w => (Raise e, w).
Definition bind {A B} (m : M A) (k : A -> M B) : M B :=
  fun w =>
    match m w with
    | (Ret a, w') => k a w'
    | (Raise e, w') => (Raise e, w')
    end.

Declare Scope py_scope.
Delimit Scope py_scope with py.
Notation "x <- c1 ;; c2" := (bind c1 (fun x => c2))
  (at level 100, c1 at next level, right associativity) : py_scope.
Notation "c1 ;; c2" := (bind c1 (fun _ => c2))
  (at level 100, right associativity) : py_scope.
Local Open Scope py_scope.

(** [try: body / finally: fin].  An exception of [fin] replaces the
    outcome of [body]. *)
Definition try_finally {A} (body : M A) (fin : M unit) : M A :=
  fun w =>
    match body w with
    | (r, w') =>
        match fin w' with
        | (Ret _, w'') => (r, w'')
        | (Raise e, w'') => (Raise e, w'')
        end
    end.

(** [try: body / except ...: handler]: [handler e] is [None] when no
    [except] clause matches [e]. *)
Definition try_except {A} (body : M A) (handler : exn -> option (M A)) : M A :=
  fun w =>
    match body w with
    | (Ret a, w') => (Ret a, w')
    | (Raise e, w') =>
        match handler e with
        | Some h => h w'
        | None => (Raise e, w')
        end
    end.

(** [try: body / except ...: handler / else: els]: the [else] clause runs
    after a [body] that did not raise, outside the reach of [handler]. *)
Definition try_except_else {A B} (body : M A) (handler : exn -> option (M B))
    (els : A -> M B) : M B :=
  fun w =>
    match body w with
    | (Ret a, w') => els a w'
    | (Raise e, w') =>
        match handler e with
        | Some h => h w'
        | None => (Raise e, w')
        end
    end.

(** [except Exception as e: h e]. *)
Definition on_Exception {A} (h : exn -> M A) (e : exn) : option (M A) :=
  if is_Exception e then Some (h e) else None.

Definition get_stdout : M stream := fun w => (Ret (sys_stdout w), w).

Definition set_stdout (st : stream) : M unit :=
  fun w => (Ret tt, {| sys_stdout := st; terminal := terminal w; stderr := stderr w;
                       workspace := workspace w; calls := calls w |}).

(** [st.write(o)] for a stream object [st]. *)
Definition write_to (st : stream) (o : out) : M unit :=
  fun w => (Ret tt, {| sys_stdout := sys_stdout w;
                       terminal := stream_write st o (terminal w);
                       stderr := stderr w;
                       workspace := workspace w; calls := calls w |}).

(** [sys.stdout.write(o)]. *)
Definition stdout_write (o : out) : M unit :=
  st <- get_stdout ;; write_to st o.

(** [print(s)]: the text, then the line end, each through [write]. *)
Definition print (s : string) : M unit :=
  stdout_write (Text s) ;; stdout_write (Text LF).

Definition stderr_write (s : string) : M unit :=
  fun w => (Ret tt, {| sys_stdout := sys_stdout w; terminal := terminal w;
                       stderr := stderr w ++ [s];
                       workspace := workspace w; calls := calls w |}).

Definition set_workspace (d : option string) : M unit :=
  fun w => (Ret tt, {| sys_stdout := sys_stdout w; terminal := terminal w;
                       stderr := stderr w;
                       workspace := d; calls := calls w |}).

Definition log_call (c : call) : M unit :=
  fun w => (Ret tt, {| sys_stdout := sys_stdout w; terminal := terminal w;
                       stderr := stderr w;
                       workspace := workspace w; calls := calls w ++ [c] |}).

Fixpoint for_each {A} (l : list A) (body : A -> M unit) : M unit :=
  match l with
  | [] => ret tt
  | x :: r => body x ;; for_each r body
  end.

(** ** The progress display *)

(** [ProgressCapture(phase_name, phase_start_pct, phase_end_pct)]: the
    constructor remembers the current [sys.stdout]. *)
Definition ProgressCapture_init (name : string) (s e : Q) : M ProgressCapture :=
  st <- get_stdout ;; ret (mkProgressCapture name s e st).

(** [ProgressCapture._render_bar]. *)
Definition render_bar (pc : ProgressCapture) (pct : Q) : M unit :=
  write_to (original_stdout pc) (Bar (phase_name pc) pct).

(** [ProgressCapture.write]. *)
Definition write (pc : ProgressCapture) (text : string) : M unit :=
  match search_pct text with
  | Some g =>
      let local_pct := float_of_decimal g in
      let overall := overall_pct (phase_start pc) (phase_end pc) local_pct in
      render_bar pc overall
  | None => ret tt
  end.

(** [ProgressCapture.finish]. *)
Definition finish (pc : ProgressCapture) : M unit :=
  render_bar pc (phase_end pc) ;;
  write_to (original_stdout pc) (Text LF).

Definition print_progress_bar (label : string) (pct : Q) : M unit :=
  stdout_write (Bar label pct).

Definition finish_progress_bar : M unit :=
  stdout_write (Text LF).

(** ** The world outside the program *)

(** An external call that may write to [sys.stdout] while it runs (the
    whisperx calls with [print_progress=True] print lines such as
    [Progress: 45.67%...]) and then returns or raises. *)
Record ExtRun (A : Type) : Type := mkExtRun {
  ext_prints : list string;
  ext_result : outcome A
}.
Arguments mkExtRun {A} _ _.
Arguments ext_prints {A} _.
Arguments ext_result {A} _.

Record Env : Type := mkEnv {
  (* the selected file and the interactive choices *)
  file_path : string;
  file_name : string;             (* [Path(file_path).name] *)
  file_stem : string;             (* [Path(file_path).stem] *)
  file_suffix : string;           (* [Path(file_path).suffix.lower()] *)
  model_size : string;
  language_code : string;
  language_name : string;
  (* the file system *)
  temp_dir : string;              (* the directory [tempfile.mkdtemp] makes *)
  downloads : string;             (* [Path.home() / "Downloads"] *)
  existing : gset string;         (* the paths for which [exists()] holds *)
  getsize : string -> Z;          (* [os.path.getsize], in bytes *)
  rmtree_result : outcome unit;   (* [shutil.rmtree(temp_dir)] *)
  (* ffprobe: [subprocess.run] raises, or stdout parses as a finite float
     ([Some d]) or does not ([None], [float] raises [ValueError]) *)
  ffprobe : string -> outcome (option Q);
  (* ffmpeg *)
  ffmpeg_stderr : list string;    (* the lines of the conversion's stderr *)
  ffmpeg_returncode : Z;          (* exit status of the video conversion *)
  compress_returncode : Z;        (* exit status of the compression *)
  (* whisperx *)
  load_model : outcome unit;
  load_audio : outcome unit;
  transcribe : ExtRun (list Segment * option string);  (* segments, result.get("language") *)
  load_align_model : ExtRun unit;
  align : ExtRun (list Segment);
  (* python-docx *)
  export_result : outcome unit;
  (* [time.time() - start_time] when the run completes *)
  elapsed : Q
}.

Definition lift_outcome {A} (r : outcome A) : M A :=
  match r with
  | Ret a => ret a
  | Raise e => raise e
  end.

(** Make an external call: it is recorded, its output goes through
    [print] to whatever [sys.stdout] is bound to, then it returns or
    raises. *)
Definition run_ext {A} (c : call) (r : ExtRun A) : M A :=
  log_call c ;;
  for_each (ext_prints r) print ;;
  lift_outcome (ext_result r).

Definition call_ext {A} (c : call) (r : outcome A) : M A :=
  log_call c ;; lift_outcome r.

(** ** Constants *)

Definition SUPPORTED_VIDEO : list string :=
  [".mp4"; ".mov"; ".avi"; ".mkv"; ".webm"; ".flv"; ".wmv"].

(** [RTF_MAP.get(model_size, 3.0)]. *)
Definition RTF_MAP_get (model : string) : Q :=
  if String.eqb model "tiny" then 6 # 10
  else if String.eqb model "base" then 1
  else if String.eqb model "small" then 16 # 10
  else if String.eqb model "medium" then 3
  else if String.eqb model "large" then 5
  else if String.eqb model "large-v3" then 5
  else 3.

(** ** Utilities *)

Definition format_timestamp (seconds : Q) : string :=
  let h := py_int (floordiv seconds 3600) in
  let m := py_int (floordiv (pymod seconds 3600) 60) in
  let s := py_int (pymod seconds 60) in
  if 0 <? h
  then fmt_02d h +:+ ":" +:+ fmt_02d m +:+ ":" +:+ fmt_02d s
  else fmt_02d m +:+ ":" +:+ fmt_02d s.

(** [get_duration_ffprobe]: [None] for any [Exception], whether ffprobe
    could not be run or its output is not a number. *)
Definition get_duration_ffprobe (env : Env) (filepath : string) : M (option Q) :=
  try_except
    (call_ext (CallFfprobe filepath) (ffprobe env filepath))
    (on_Exception (fun _ => ret None)).

Definition estimate_processing_time (duration_seconds : Q) (model : string) : string :=
  let rtf := RTF_MAP_get model in
  let estimated := (duration_seconds * rtf)%Q in
  if Qltb estimated 60 then "~" +:+ str_int (py_int estimated) +:+ " seconden"
  else if Qltb estimated 3600 then "~" +:+ str_int (py_int (estimated / 60)) +:+ " minuten"
  else "~" +:+ fmt_f 0 1 (estimated / 3600) +:+ " uur".

(** Truth value of an optional float: [None] and [0.0] are false. *)
Definition truthy (d : option Q) : bool :=
  match d with
  | None => false
  | Some x => negb (Qeq_bool x 0)
  end.

(** [duration and duration > 0]. *)
Definition known_positive (d : option Q) : bool :=
  match d with
  | None => false
  | Some x => negb (Qeq_bool x 0) && Qltb 0 x
  end.

(** ** Audio and video processing *)

Definition is_video (suffix : string) : bool :=
  existsb (String.eqb suffix) SUPPORTED_VIDEO.

Definition path_join (dir name : string) : string := dir +:+ "/" +:+ name.

(** The body of the loop over the lines of ffmpeg's stderr. *)
Definition convert_progress_line (duration : option Q) (line : string) : M unit :=
  match search_time line with
  | Some (h, m, s) =>
      if known_positive duration then
        match duration with
        | Some d =>
            let current :=
              (inject_Z (int_of_digits h * 3600 + int_of_digits m * 60) + float_of_decimal s)%Q in
            let pct := py_min (current / d * 100) 100 in
            let overall := (5 + (pct / 100) * 10)%Q in
            print_progress_bar "Video conversie" overall
        | None => ret tt
        end
      else ret tt
  | None => ret tt
  end.

Definition convert_video_to_audio (env : Env) (video_path temp : string) : M string :=
  let output_path := path_join temp (file_stem env +:+ ".wav") in
  duration <- get_duration_ffprobe env video_path ;;
  log_call (CallFfmpegConvert video_path output_path) ;;
  for_each (ffmpeg_stderr env) (convert_progress_line duration) ;;
  (if negb (ffmpeg_returncode env =? 0)
   then raise (PyException "ffmpeg video conversie mislukt")
   else ret tt) ;;
  print_progress_bar "Video conversie" 15 ;;
  finish_progress_bar ;;
  ret output_path.

Definition MB : Z := 1024 * 1024.

Definition compress_audio_if_needed (env : Env) (audio_path temp : string) : M string :=
  let file_size_mb := (inject_Z (getsize env audio_path) / inject_Z MB)%Q in
  if Qltb file_size_mb 500 then ret audio_path
  else
    print ("  Groot bestand (" +:+ fmt_f 0 0 file_size_mb +:+ "MB), wordt gecomprimeerd...") ;;
    let output_path := path_join temp "compressed_audio.wav" in
    log_call (CallFfmpegCompress audio_path output_path) ;;
    (if negb (compress_returncode env =? 0)
     then raise (PyException "CalledProcessError")
     else ret tt) ;;
    let new_size_mb := (inject_Z (getsize env output_path) / inject_Z MB)%Q in
    print ("  Gecomprimeerd: " +:+ fmt_f 0 0 file_size_mb +:+ "MB -> "
           +:+ fmt_f 0 0 new_size_mb +:+ "MB") ;;
    ret output_path.

(** ** Transcription *)

Definition run_transcription (env : Env) (audio_path model language : string)
  : M (list Segment * string) :=
  (* Phase 1: load model (0-10%) *)
  print_progress_bar "Model laden" 0 ;;
  call_ext (CallLoadModel model language) (load_model env) ;;
  print_progress_bar "Model laden" 10 ;;
  finish_progress_bar ;;
  (* Phase 2: load audio (10-15%) *)
  print_progress_bar "Audio laden" 10 ;;
  call_ext (CallLoadAudio audio_path) (load_audio env) ;;
  print_progress_bar "Audio laden" 15 ;;
  finish_progress_bar ;;
  (* Phase 3: transcribe with progress (15-70%) *)
  progress <- ProgressCapture_init "Transcriptie" 15 70 ;;
  old_stdout <- get_stdout ;;
  set_stdout (Redirected progress) ;;
  result <- try_finally
              (run_ext CallTranscribe (transcribe env))
              (set_stdout old_stdout) ;;
  finish progress ;;
  let segments := fst result in
  let detected_language := default language (snd result) in
  print ("  Taal: " +:+ detected_language +:+ ", Segmenten: "
         +:+ str_int (Z.of_nat (length segments))) ;;
  (* Phase 4: alignment (70-90%) *)
  align_progress <- ProgressCapture_init "Uitlijning" 70 90 ;;
  old_stdout <- get_stdout ;;
  set_stdout (Redirected align_progress) ;;
  aligned <- try_except_else
               (run_ext (CallLoadAlignModel detected_language) (load_align_model env) ;;
                run_ext (CallAlign segments) (align env))
               (on_Exception (fun e =>
                  set_stdout old_stdout ;;
                  print (LF +:+ "  Waarschuwing: Uitlijning mislukt (" +:+ exn_str e
                         +:+ "), ruwe segmenten worden gebruikt.") ;;
                  ret segments))
               (fun a => set_stdout old_stdout ;; ret a) ;;
  finish align_progress ;;
  ret (aligned, detected_language).

(** ** Export naming *)

(** [output_dir / f"{file_stem}.docx"]. *)
Definition canonical_path (dir stem : string) : string :=
  path_join dir (stem +:+ ".docx").

(** [output_dir / f"{file_stem}_{counter}.docx"]. *)
Definition suffixed_path (dir stem : string) (counter : Z) : string :=
  path_join dir (stem +:+ "_" +:+ str_int counter +:+ ".docx").

(** The [while output_path.exists()] loop of [main], started with
    [output_path] and [counter]; [fuel] bounds the number of iterations and
    [None] means it was used up. *)
Fixpoint collision_loop (fuel : nat) (files : gset string) (dir stem : string)
    (output_path : string) (counter : Z) : option string :=
  if decide (output_path ∈ files) then
    match fuel with
    | O => None
    | S fuel' =>
        collision_loop fuel' files dir stem (suffixed_path dir stem counter) (counter + 1)
    end
  else Some output_path.

(** The path [main] exports to.  One iteration more than there are
    existing paths is always enough (see [collision_loop_terminates]), so the
    default is never used. *)
Definition resolve_output_path (files : gset string) (dir stem : string) : string :=
  let output_path := canonical_path dir stem in
  default output_path
    (collision_loop (S (size files)) files dir stem output_path 1).

(** ** The run controller *)

(** [main], file information: the duration string and the printed
    estimate. *)
Definition main_file_info (env : Env) : M string :=
  duration <- get_duration_ffprobe env (file_path env) ;;
  if truthy duration then
    match duration with
    | Some d =>
        let duration_str := format_timestamp d in
        let est := estimate_processing_time d (model_size env) in
        print ("  Duur: " +:+ duration_str) ;;
        print ("  Geschatte verwerkingstijd: " +:+ est) ;;
        ret duration_str
    | None => ret "Onbekend"
    end
  else ret "Onbekend".

(** Steps 1 and 2 of the [try] block of [main]: the audio to transcribe. *)
Definition main_prepare_audio (env : Env) (temp : string) : M string :=
  (* Step 1: video conversion if needed *)
  audio_path <- (if is_video (file_suffix env)
                 then print "  Video gedetecteerd, audio extraheren..." ;;
                      convert_video_to_audio env (file_path env) temp
                 else ret (file_path env)) ;;
  (* Step 2: compress if needed *)
  compress_audio_if_needed env audio_path temp.

(** Step 5 of the [try] block of [main] and the closing report. *)
Definition main_export (env : Env) (duration_str : string) (segments : list Segment)
  : M unit :=
  print_progress_bar "Word export" 90 ;;
  let output_path := resolve_output_path (existing env) (downloads env) (file_stem env) in
  let metadata :=
    {| md_title := file_stem env; md_filename := file_name env;
       md_duration_str := duration_str; md_model := model_size env;
       md_language := language_name env |} in
  call_ext (CallExport segments metadata output_path) (export_result env) ;;
  print_progress_bar "Word export" 100 ;;
  finish_progress_bar ;;
  print "" ;;
  print "============================================" ;;
  print "  VOLTOOID!" ;;
  print ("  Verwerkingstijd: " +:+ format_timestamp (elapsed env)) ;;
  print ("  Output: " +:+ output_path) ;;
  print "============================================" ;;
  print "" ;;
  log_call (CallOpenFinder output_path).

(** The duration string after step 3: the duration of the audio when the
    probe gives one that is not zero. *)
Definition audio_duration_str (audio_duration : option Q) (duration_str : string) : string :=
  match audio_duration with
  | Some d => if truthy audio_duration then format_timestamp d else duration_str
  | None => duration_str
  end.

(** The body of the [try] block of [main]. *)
Definition main_try_body (env : Env) (duration_str : string) (temp : string) : M unit :=
  print "Verwerking gestart..." ;;
  print "" ;;
  audio_path <- main_prepare_audio env temp ;;
  (* Step 3: duration of the audio *)
  audio_duration <- get_duration_ffprobe env audio_path ;;
  let duration_str := audio_duration_str audio_duration duration_str in
  (* Step 4: transcribe and align *)
  r <- run_transcription env audio_path (model_size env) (language_code env) ;;
  let segments := fst r in
  main_export env duration_str segments.

(** The handlers of [main]: [except KeyboardInterrupt] and
    [except Exception as e]. *)
Definition main_handler (e : exn) : option (M unit) :=
  match e with
  | PyKeyboardInterrupt =>
      Some (print (LF +:+ LF +:+ "  Afgebroken door gebruiker."))
  | PyException msg =>
      Some (print (LF +:+ LF +:+ "  FOUT: " +:+ msg) ;;
            stderr_write "Traceback (most recent call last):")
  | PyBaseException _ => None
  end.

(** The [finally] clause of [main]: [shutil.rmtree(temp_dir)], any
    [Exception] of which is passed over. *)
Definition main_cleanup (env : Env) (temp : string) : M unit :=
  try_except
    (log_call (CallRmtree temp) ;;
     r <- lift_outcome (rmtree_result env) ;;
     set_workspace None)
    (on_Exception (fun _ => ret tt)).

(** The processing section of [main]: the temporary directory is made,
    the [try] statement runs. *)
Definition main_processing (env : Env) (duration_str : string) : M unit :=
  let temp := temp_dir env in
  set_workspace (Some temp) ;;
  try_finally
    (try_except (main_try_body env duration_str temp) main_handler)
    (main_cleanup env temp).

(** [main], from the file information to the end, once a file has been
    selected. *)
Definition main (env : Env) : M unit :=
  duration_str <- main_file_info env ;;
  print "  Device: CPU (Intel)" ;;
  print "  Compute: float32" ;;
  print "" ;;
  main_processing env duration_str.

(** ** Observations on a finished run *)

(** The global percentages of the bars the terminal received, in order. *)
Fixpoint shown_pcts (l : list out) : list Q :=
  match l with
  | [] => []
  | Bar _ p :: r => p :: shown_pcts r
  | Text _ :: r => shown_pcts r
  end.

Definition is_rmtree (c : call) : bool :=
  match c with CallRmtree _ => true | _ => false end.

Definition is_export (c : call) : bool :=
  match c with CallExport _ _ _ => true | _ => false end.

Definition is_compress (c : call) : bool :=
  match c with CallFfmpegCompress _ _ => true | _ => false end.

Definition is_convert (c : call) : bool :=
  match c with CallFfmpegConvert _ _ => true | _ => false end.

(** The segments handed to the exporter, if the export was reached. *)
Fixpoint exported_segments (l : list call) : option (list Segment) :=
  match l with
  | [] => None
  | CallExport segs _ _ :: _ => Some segs
  | _ :: r => exported_segments r
  end.

(** The declared phases, in order, with their sub-ranges: the constants of
    [run_transcription] and of step 5 of [main]. *)
Definition declared_phases : list (string * (Q * Q)) :=
  [ ("model-load", (0, 10)); ("audio-load", (10, 15)); ("inference", (15, 70));
    ("alignment", (70, 90)); ("export", (90, 100)) ]%Q.

(** Predicates on strings used to state what the patterns match. *)
Fixpoint all_digits (s : string) : bool :=
  match s with
  | "" => true
  | String c r => is_digit c && all_digits r
  end.

Definition starts_with_digit (s : string) : bool :=
  match s with
  | String c _ => is_digit c
  | "" => false
  end.

(** ** Assertions about runs *)

(** [inv I m]: [m] keeps [I], however it ends. *)
Definition inv {A} (I : World -> Prop) (m : M A) : Prop :=
  forall w, I w -> I (snd (m w)).

(** No rendered percentage is smaller than one rendered before it. *)
Definition nondecreasing (l : list Q) : Prop :=
  forall (i j : nat) (x y : Q),
    (i < j)%nat -> l !! i = Some x -> l !! j = Some y -> (x <= y)%Q.

(** The local percentages [ProgressCapture.write] finds in the lines an
    external call prints. *)
Definition local_pcts (prints : list string) : list Q :=
  omap (fun s => float_of_decimal <$> search_pct s) prints.

(** The calls selected by [p], in order. *)
Definition calls_where (p : call -> bool) (w : World) : list call :=
  filter (fun c => p c = true) (calls w).

(** ** Sample runs *)

Definition sample_segments : list Segment :=
  [ mkSegment 0 (3 # 2) " Goedemorgen";
    mkSegment (3 # 2) 4 " allemaal";
    mkSegment 4 (13 # 2) " welkom" ].

(** A run on a file [talk] with the given suffix and size; the outcomes
    that differ between the sample runs are arguments, everything else
    succeeds. *)
Definition sample_env (suffix : string) (size : Z) (probe : outcome (option Q))
    (conv_lines : list string)
    (tr : ExtRun (list Segment * option string))
    (al : ExtRun (list Segment)) (rm : outcome unit) : Env :=
  {| file_path := "/in/talk" +:+ suffix; file_name := "talk" +:+ suffix;
     file_stem := "talk"; file_suffix := suffix;
     model_size := "medium"; language_code := "nl"; language_name := "Nederlands";
     temp_dir := "/tmp/cml_transcriptie_x1"; downloads := "/Users/u/Downloads";
     existing := {[ "/Users/u/Downloads/talk.docx"; "/Users/u/Downloads/talk_1.docx" ]};
     getsize := fun _ => size; rmtree_result := rm;
     ffprobe := fun _ => probe;
     ffmpeg_stderr := conv_lines; ffmpeg_returncode := 0; compress_returncode := 0;
     load_model := Ret tt; load_audio := Ret tt;
     transcribe := tr;
     load_align_model := mkExtRun [] (Ret tt);
     align := al;
     export_result := Ret tt; elapsed := 125 |}.

Definition transcribe_ok : ExtRun (list Segment * option string) :=
  mkExtRun ["Progress: 50.00%..."; "Progress: 100.00%..."] (Ret (sample_segments, None)).

Definition align_ok : ExtRun (list Segment) :=
  mkExtRun ["Progress: 33.33%..."; "Progress: 100.00%..."] (Ret sample_segments).

(** An audio file, every step succeeds. *)
Definition audio_run : Env :=
  sample_env ".mp3" 1000 (Ret (Some 60%Q)) [] transcribe_ok align_ok (Ret tt).

(** A video file, every step succeeds. *)
Definition video_run : Env :=
  sample_env ".mp4" 1000 (Ret (Some 60%Q))
    ["out_time=00:00:30.000000"; "progress=continue"; "out_time=00:01:00.000000"]
    transcribe_ok align_ok (Ret tt).

(** The alignment raises an ordinary error. *)
Definition align_fails_run : Env :=
  sample_env ".mp3" 1000 (Ret (Some 60%Q)) [] transcribe_ok
    (mkExtRun ["Progress: 33.33%..."] (Raise (PyException "No align-model for language"))) (Ret tt).

(** The user interrupts the alignment. *)
Definition align_interrupted_run : Env :=
  sample_env ".mp3" 1000 (Ret (Some 60%Q)) [] transcribe_ok
    (mkExtRun ["Progress: 33.33%..."] (Raise PyKeyboardInterrupt)) (Ret tt).


(** ffprobe prints a negative duration. *)
Definition negative_duration_run : Env :=
  sample_env ".mp3" 1000 (Ret (Some (-5)%Q)) [] transcribe_ok align_ok (Ret tt).

(** An audio file of exactly 500 MB. *)
Definition exactly_500MB_run : Env :=
  sample_env ".wav" 524288000 (Ret (Some 60%Q)) [] transcribe_ok align_ok (Ret tt).


(** ** Closed forms used to describe runs *)

(** What [print] sends to [sys.stdout] for a list of lines. *)
Definition print_outs (lines : list string) : list out :=
  flat_map (fun s => [Text s; Text LF]) lines.

(** The bars a [ProgressCapture] over the terminal renders for the lines an
    external call prints. *)
Definition bars_of (name : string) (s e : Q) (prints : list string) : list out :=
  map (fun p => Bar name (overall_pct s e p)) (local_pcts prints).

(** What the alignment phase does as a whole: the model is loaded, then
    the segments are aligned. *)
Definition alignment_outcome (env : Env) : outcome (list Segment) :=
  match ext_result (load_align_model env) with
  | Ret _ => ext_result (align env)
  | Raise e => Raise e
  end.

(** The lines printed during the alignment phase. *)
Definition alignment_prints (env : Env) : list string :=
  ext_prints (load_align_model env)
  ++ match ext_result (load_align_model env) with
     | Ret _ => ext_prints (align env)
     | Raise _ => []
     end.

(** The warning of the alignment phase. *)
Definition alignment_warning (msg : string) : string :=
  LF +:+ "  Waarschuwing: Uitlijning mislukt (" +:+ msg
     +:+ "), ruwe segmenten worden gebruikt.".

(** The line [run_transcription] prints after the inference. *)
Definition language_line (lang : string) (segments : list Segment) : string :=
  "  Taal: " +:+ lang +:+ ", Segmenten: " +:+ str_int (Z.of_nat (length segments)).

(** The terminal lines of phases 1 to 3 and of the intercepted part of
    phase 4, for a run in which the inference returns [segments]. *)
Definition pipeline_outs (env : Env) (lang : string) (segments : list Segment) : list out :=
  [Bar "Model laden" 0; Bar "Model laden" 10; Text LF;
   Bar "Audio laden" 10; Bar "Audio laden" 15; Text LF]
  ++ bars_of "Transcriptie" 15 70 (ext_prints (transcribe env))
  ++ [Bar "Transcriptie" 70; Text LF; Text (language_line lang segments); Text LF]
  ++ bars_of "Uitlijning" 70 90 (alignment_prints env).

(** The external calls of [run_transcription] in such a run. *)
Definition pipeline_calls (env : Env) (audio model language lang : string)
    (segments : list Segment) : list call :=
  [CallLoadModel model language; CallLoadAudio audio; CallTranscribe;
   CallLoadAlignModel lang]
  ++ match ext_result (load_align_model env) with
     | Ret _ => [CallAlign segments]
     | Raise _ => []
     end.

(** The steps before the transcription do not fail: ffprobe is never
    interrupted, a video conversion exits with status 0, and so does the
    compression of a file of 500 MB or more. *)
Definition preprocessing_succeeds (env : Env) : Prop :=
  (forall p e, ffprobe env p = Raise e -> is_Exception e = true) /\
  (is_video (file_suffix env) = true -> ffmpeg_returncode env = 0) /\
  (forall p, 500 * MB <= getsize env p -> compress_returncode env = 0).

(** [chain lo l hi]: the percentages of [l] start at [lo] or above, never
    decrease, and end at [hi] or below. *)
Fixpoint chain (lo : Q) (l : list Q) (hi : Q) : Prop :=
  match l with
  | [] => (lo <= hi)%Q
  | x :: r => (lo <= x)%Q /\ chain x r hi
  end.

(** The lines an external call prints report a local progress that never
    decreases and stays within 0 to 100. *)
Definition steady_progress (prints : list string) : Prop :=
  chain 0 (local_pcts prints) 100.

(** [sys.stdout] is the terminal and the bars shown so far rise to at most
    [b]. *)
Definition Shown (b : Q) (w : World) : Prop :=
  sys_stdout w = Terminal /\ chain 0 (shown_pcts (terminal w)) b.

(** The state an exception [e] leaves behind: the bars shown so far rise to
    at most [b], and [sys.stdout] is the terminal unless [e] is not an
    [Exception]. *)
Definition Ended (b : Q) (e : exn) (w : World) : Prop :=
  chain 0 (shown_pcts (terminal w)) b /\
  (sys_stdout w = Terminal \/ is_Exception e = false).

(** [advances a b m]: run after bars up to [a], [m] shows bars that go on
    rising, up to [b] at most. *)
Definition advances {A} (a b : Q) (m : M A) : Prop :=
  forall w, Shown a w ->
    match fst (m w) with
    | Ret _ => Shown b (snd (m w))
    | Raise e => Ended b e (snd (m w))
    end.

(** [quiet a b m]: the same, and [sys.stdout] is the terminal afterwards
    however [m] ends. *)
Definition quiet {A} (a b : Q) (m : M A) : Prop :=
  forall w, Shown a w -> Shown b (snd (m w)).

(** The declared phase each bar label belongs to. *)
Definition label_phase (label : string) : string :=
  if String.eqb label "Model laden" then "model-load"
  else if String.eqb label "Audio laden" then "audio-load"
  else if String.eqb label "Transcriptie" then "inference"
  else if String.eqb label "Uitlijning" then "alignment"
  else if String.eqb label "Word export" then "export"
  else "".

(** A bar lies in the declared sub-range of the phase of its label. *)
Definition in_declared_range (o : out) : bool :=
  match o with
  | Text _ => true
  | Bar label p =>
      existsb (fun ph => String.eqb (fst ph) (label_phase label)
                         && Qle_bool (fst (snd ph)) p && Qle_bool p (snd (snd ph)))
              declared_phases
  end.

(** ** More of the source: text cleaning, the menus, file selection, the
    transcript body *)


(** [s.lstrip(chars)], with the set of characters as a predicate. *)
Fixpoint lstrip_by (p : ascii -> bool) (s : string) : string :=
  match s with
  | String c r => if p c then lstrip_by p r else s
  | "" => ""
  end.

(** [s.rstrip(chars)]. *)
Fixpoint rstrip_by (p : ascii -> bool) (s : string) : string :=
  match s with
  | "" => ""
  | String c r =>
      match rstrip_by p r with
      | "" => if p c then "" else String c ""
      | String d r' => String c (String d r')
      end
  end.

(** [s.strip(chars)]. *)
Definition strip_by (p : ascii -> bool) (s : string) : string :=
  rstrip_by p (lstrip_by p s).





















(** Every character of [s] satisfies [p]. *)
Fixpoint all_chars (p : ascii -> bool) (s : string) : bool :=
  match s with
  | "" => true
  | String c r => p c && all_chars p r
  end.

Definition first_char (s : string) : option ascii :=
  match s with
  | String c _ => Some c
  | "" => None
  end.

Fixpoint last_char (s : string) : option ascii :=
  match s with
  | "" => None
  | String c "" => Some c
  | String _ r => last_char r
  end.

Fixpoint contains_char (c : ascii) (s : string) : bool :=
  match s with
  | "" => false
  | String a r => Ascii.eqb a c || contains_char c r
  end.

(** The whisperx calls [run_transcription] makes before the alignment. *)
Definition is_inference_call (c : call) : bool :=
  match c with
  | CallLoadModel _ _ | CallLoadAudio _ | CallTranscribe => true
  | _ => false
  end.

(** The inference raises an ordinary error. *)
Definition inference_fails_run : Env :=
  sample_env ".mp3" 1000 (Ret (Some 60%Q)) []
    (mkExtRun ["Progress: 50.00%..."] (Raise (PyException "out of memory")))
    align_ok (Ret tt).

(** The calls to the exporter made so far are exactly [l]. *)
Definition exports_are (l : list call) (w : World) : Prop :=
  calls_where is_export w = l.

(** [sys.stdout] is bound to the terminal. *)
Definition on_terminal (w : World) : Prop := sys_stdout w = Terminal.

(** [unwinds m]: started on the terminal, [m] leaves [sys.stdout] bound to
    the terminal when it returns and when it raises an [Exception]. *)
Definition unwinds {A} (m : M A) : Prop :=
  forall w, on_terminal w ->
    match fst (m w) with
    | Ret _ => on_terminal (snd (m w))
    | Raise e => is_Exception e = true -> on_terminal (snd (m w))
    end.

(** A video file for which ffmpeg exits with status 1. *)
Definition conversion_fails_run : Env :=
  {| file_path := "/in/clip.mp4"; file_name := "clip.mp4";
     file_stem := "clip"; file_suffix := ".mp4";
     model_size := "medium"; language_code := "nl"; language_name := "Nederlands";
     temp_dir := "/tmp/cml_transcriptie_x2"; downloads := "/Users/u/Downloads";
     existing := ∅;
     getsize := fun _ => 1000; rmtree_result := Ret tt;
     ffprobe := fun _ => Ret (Some 60%Q);
     ffmpeg_stderr := ["frame=1 time=00:00:30.00 bitrate=1"]; ffmpeg_returncode := 1;
     compress_returncode := 0;
     load_model := Ret tt; load_audio := Ret tt;
     transcribe := transcribe_ok;
     load_align_model := mkExtRun [] (Ret tt);
     align := align_ok;
     export_result := Ret tt; elapsed := 125 |}.

(** ** The compatibility patches of [patch_compat.py] *)

(** The values keyword arguments take in the calls that are patched. *)
Inductive pyval : Type :=
| PyNone
| PyBool (b : bool)
| PyStr (s : string)
| PyInt (n : Z).

(** The keyword arguments [_patched] passes on to the original
    [hf_hub_download]: [use_auth_token], when given, is popped and its value
    stored under [token]. *)
Definition hf_patched_kwargs (kwargs : gmap string pyval) : gmap string pyval :=
  match kwargs !! "use_auth_token" with
  | Some v => <["token" := v]> (delete "use_auth_token" kwargs)
  | None => kwargs
  end.

(** [_patched], the wrapper around [_original]: positional arguments go
    through as they are. *)
Definition hf_patched {R : Type} (original : list pyval -> gmap string pyval -> R)
    (args : list pyval) (kwargs : gmap string pyval) : R :=
  original args (hf_patched_kwargs kwargs).

(** The keyword arguments [_patched_load] passes on to the original
    [torch.load]: [weights_only] is set to [False] when [kwargs.get] gives
    [None] for it, that is when it is missing or given as [None]. *)
Definition torch_patched_kwargs (kwargs : gmap string pyval) : gmap string pyval :=
  match kwargs !! "weights_only" with
  | None | Some PyNone => <["weights_only" := PyBool false]> kwargs
  | Some _ => kwargs
  end.

(** [_patched_load], the wrapper around [_original_load]. *)
Definition torch_patched_load {R : Type} (original : list pyval -> gmap string pyval -> R)
    (args : list pyval) (kwargs : gmap string pyval) : R :=
  original args (torch_patched_kwargs kwargs).

(** The user interrupts the inference. *)
Definition inference_interrupted_run : Env :=
  sample_env ".mp3" 1000 (Ret (Some 60%Q)) []
    (mkExtRun ["Progress: 50.00%..."] (Raise PyKeyboardInterrupt))
    align_ok (Ret tt).
(** * Properties *)


(** ** Digits and the percentage pattern *)

Lemma append_empty_r (s : string) : s +:+ "" = s.
Proof. induction s as [|c s IH]; [reflexivity|]. unfold String.append; fold String.append. by rewrite IH. Qed.

Lemma append_cons (c : ascii) (s t : string) : String c s +:+ t = String c (s +:+ t).
Proof. reflexivity. Qed.

Lemma append_assoc (s t u : string) : (s +:+ t) +:+ u = s +:+ t +:+ u.
Proof. induction s as [|c s IH]; [reflexivity|]. rewrite !append_cons. by rewrite IH. Qed.

Lemma digit_val_range (c : ascii) : is_digit c = true → 0 ≤ digit_val c ≤ 9.
Proof.
  unfold is_digit, digit_val. intros H.
  apply andb_true_iff in H as [H1 H2].
  apply N.leb_le in H1. apply N.leb_le in H2. lia.
Qed.

Lemma span_digits_spec (s d r : string) :
  span_digits s = (d, r) →
  s = d +:+ r ∧ all_digits d = true ∧ starts_with_digit r = false.
Proof.
  revert d r. induction s as [|c s IH]; intros d r H; simpl in H.
  - by inversion H.
  - destruct (is_digit c) eqn:Hc.
    + destruct (span_digits s) as [d' t] eqn:Hs. inversion H; subst.
      destruct (IH d' r eq_refl) as (-> & Hd & Hr).
      rewrite append_cons. simpl. by rewrite Hc, Hd.
    + inversion H; subst. simpl. by rewrite Hc.
Qed.

Lemma span_digits_app (d r : string) :
  all_digits d = true → starts_with_digit r = false →
  span_digits (d +:+ r) = (d, r).
Proof.
  intros Hd Hr. induction d as [|c d IH].
  - destruct r as [|c r]; [reflexivity|]. simpl in *. unfold String.append. simpl. by rewrite Hr.
  - simpl in Hd. apply andb_true_iff in Hd as [Hc Hd].
    rewrite append_cons. simpl. by rewrite Hc, (IH Hd).
Qed.

Lemma fold_digits_nonneg (l : list ascii) (acc : Z) :
  0 ≤ acc → forallb is_digit l = true →
  0 ≤ fold_left (λ a c, 10 * a + digit_val c) l acc.
Proof.
  revert acc. induction l as [|c l IH]; intros acc Hacc Hl; simpl in *; [done|].
  apply andb_true_iff in Hl as [Hc Hl].
  apply IH; [|done]. pose proof (digit_val_range c Hc). lia.
Qed.

Lemma all_digits_list (s : string) :
  all_digits s = forallb is_digit (list_ascii_of_string s).
Proof. induction s as [|c s IH]; simpl; [done|]. by rewrite IH. Qed.

Lemma all_digits_app (s t : string) :
  all_digits (s +:+ t) = all_digits s && all_digits t.
Proof.
  induction s as [|c s IH]; [reflexivity|].
  rewrite append_cons. simpl. by rewrite IH, andb_assoc.
Qed.

Lemma int_of_digits_nonneg (s : string) : all_digits s = true → 0 ≤ int_of_digits s.
Proof.
  intros H. unfold int_of_digits. apply fold_digits_nonneg; [lia|].
  by rewrite <-all_digits_list.
Qed.

Lemma inject_Z_nonneg (z : Z) : 0 ≤ z → (0 <= inject_Z z)%Q.
Proof. intros H. change 0%Q with (inject_Z 0). by rewrite <-Zle_Qle. Qed.

(** A number made of digits, an optional dot and digits is not negative. *)
Lemma float_of_decimal_nonneg (d1 dot d2 : string) :
  all_digits d1 = true → all_digits d2 = true →
  (dot = "." ∨ (dot = "" ∧ d2 = "")) →
  (0 <= float_of_decimal (d1 +:+ dot +:+ d2))%Q.
Proof.
  intros H1 H2 [-> | [-> ->]]; unfold float_of_decimal.
  - rewrite (span_digits_app d1 ("." +:+ d2)) by done.
    change (expect "." ("." +:+ d2)) with (Some d2).
    apply Qle_shift_div_l.
    + change 0%Q with (inject_Z 0). rewrite <-Zlt_Qlt. lia.
    + rewrite Qmult_0_l. apply inject_Z_nonneg, int_of_digits_nonneg. by rewrite all_digits_app, H1, H2.
  - rewrite (span_digits_app d1 ("" +:+ "")) by done.
    change (expect "." ("" +:+ "")) with (@None string).
    by apply inject_Z_nonneg, int_of_digits_nonneg.
Qed.



(** ** Rules for the monad *)

Section Rules.
Context {A B : Type}.
Implicit Types (m : M A) (k : A -> M B) (w : World).

Lemma bind_ret_eq m k w a w' : m w = (Ret a, w') -> bind m k w = k a w'.
Proof. unfold bind. by intros ->. Qed.

Lemma bind_raise_eq m k w e w' : m w = (Raise e, w') -> bind m k w = (Raise e, w').
Proof. unfold bind. by intros ->. Qed.

Lemma inv_bind (I : World -> Prop) m k :
  inv I m -> (forall a, inv I (k a)) -> inv I (bind m k).
Proof.
  intros Hm Hk w Hw. specialize (Hm w Hw). unfold bind.
  destruct (m w) as [[a|e] w']; simpl in *; [by apply Hk|done].
Qed.

Lemma inv_try_except_else (I : World -> Prop) m (h : exn -> option (M B)) k :
  inv I m -> (forall e h', h e = Some h' -> inv I h') -> (forall a, inv I (k a)) ->
  inv I (try_except_else m h k).
Proof.
  intros Hm Hh Hk w Hw. specialize (Hm w Hw). unfold try_except_else.
  destruct (m w) as [[a|e] w']; simpl in *; [by apply Hk|].
  destruct (h e) as [h'|] eqn:He; [by eapply Hh|done].
Qed.

End Rules.

Section InvRules.
Context {A : Type}.
Implicit Types (m : M A) (w : World).

Lemma inv_ret (I : World -> Prop) (a : A) : inv I (ret a).
Proof. by intros w Hw. Qed.

Lemma inv_raise (I : World -> Prop) (e : exn) : inv I (@raise A e).
Proof. by intros w Hw. Qed.

Lemma inv_lift_outcome (I : World -> Prop) (r : outcome A) : inv I (lift_outcome r).
Proof. destruct r; [apply inv_ret|apply inv_raise]. Qed.

Lemma inv_try_finally (I : World -> Prop) m (fin : M unit) :
  inv I m -> inv I fin -> inv I (try_finally m fin).
Proof.
  intros Hm Hf w Hw. specialize (Hm w Hw). unfold try_finally.
  destruct (m w) as [r w']. simpl in Hm. specialize (Hf w' Hm).
  destruct (fin w') as [[[]|e] w'']; done.
Qed.

Lemma inv_try_except (I : World -> Prop) m (h : exn -> option (M A)) :
  inv I m -> (forall e h', h e = Some h' -> inv I h') -> inv I (try_except m h).
Proof.
  intros Hm Hh w Hw. specialize (Hm w Hw). unfold try_except.
  destruct (m w) as [[a|e] w']; simpl in *; [done|].
  destruct (h e) as [h'|] eqn:He; [by eapply Hh|done].
Qed.

Lemma inv_on_Exception (I : World -> Prop) (h : exn -> M A) e h' :
  (forall e, inv I (h e)) -> on_Exception h e = Some h' -> inv I h'.
Proof. unfold on_Exception. intros Hh. destruct (is_Exception e); naive_solver. Qed.

Lemma inv_for_each (I : World -> Prop) (l : list A) (body : A -> M unit) :
  (forall x, inv I (body x)) -> inv I (for_each l body).
Proof.
  intros Hb. induction l as [|x l IH]; simpl; [by intros w Hw|].
  apply inv_bind; auto.
Qed.

End InvRules.

(** ** What the whole try body leaves alone *)

(** Any property of the state that survives output, rebinding of
    [sys.stdout] and external calls other than [shutil.rmtree] survives
    everything [main] does inside its [try] statement and its handlers. *)
Section Frame.
Variable I : World -> Prop.
Hypothesis I_write : forall st o, inv I (write_to st o).
Hypothesis I_stdout : forall st, inv I (set_stdout st).
Hypothesis I_stderr : forall s, inv I (stderr_write s).
Hypothesis I_call : forall c, is_rmtree c = false -> inv I (log_call c).

Lemma frame_get_stdout : inv I get_stdout.
Proof. by intros w Hw. Qed.

Lemma frame_stdout_write o : inv I (stdout_write o).
Proof. unfold stdout_write. apply inv_bind; [apply frame_get_stdout|intros; apply I_write]. Qed.

Lemma frame_print s : inv I (print s).
Proof. unfold print. apply inv_bind; [|intros ?]; apply frame_stdout_write. Qed.

Lemma frame_print_progress_bar l p : inv I (print_progress_bar l p).
Proof. apply frame_stdout_write. Qed.

Lemma frame_finish_progress_bar : inv I finish_progress_bar.
Proof. apply frame_stdout_write. Qed.

Lemma frame_finish pc : inv I (finish pc).
Proof. unfold finish, render_bar. apply inv_bind; [|intros ?]; apply I_write. Qed.

Lemma frame_ProgressCapture_init n s e : inv I (ProgressCapture_init n s e).
Proof.
  unfold ProgressCapture_init. apply inv_bind; [apply frame_get_stdout|intros ?; apply inv_ret].
Qed.

Lemma frame_run_ext {A} c (r : ExtRun A) : is_rmtree c = false -> inv I (run_ext c r).
Proof.
  intros Hc. unfold run_ext.
  apply inv_bind; [by apply I_call|intros ?].
  apply inv_bind; [|intros ?; apply inv_lift_outcome].
  apply inv_for_each. intros x. apply frame_print.
Qed.

Lemma frame_call_ext {A} c (r : outcome A) : is_rmtree c = false -> inv I (call_ext c r).
Proof.
  intros Hc. unfold call_ext.
  apply inv_bind; [by apply I_call|intros ?; apply inv_lift_outcome].
Qed.

Lemma frame_get_duration_ffprobe env path : inv I (get_duration_ffprobe env path).
Proof.
  unfold get_duration_ffprobe. apply inv_try_except; [by apply frame_call_ext|].
  intros e h Hh. eapply inv_on_Exception; [|exact Hh]. intros ?. apply inv_ret.
Qed.

Lemma frame_convert_progress_line d line : inv I (convert_progress_line d line).
Proof.
  unfold convert_progress_line.
  destruct (search_time line) as [[[h m] s]|]; [|apply inv_ret].
  destruct (known_positive d); [|apply inv_ret].
  destruct d; [apply frame_print_progress_bar|apply inv_ret].
Qed.

(** The syntax-directed step: the head of the program decides the rule. *)
Ltac frame_step :=
  cbv beta;
  lazymatch goal with
  | |- inv _ (bind _ _) => apply inv_bind; [|intros ?]
  | |- inv _ (ret _) => apply inv_ret
  | |- inv _ (raise _) => apply inv_raise
  | |- inv _ (lift_outcome _) => apply inv_lift_outcome
  | |- inv _ (print _) => apply frame_print
  | |- inv _ (print_progress_bar _ _) => apply frame_print_progress_bar
  | |- inv _ finish_progress_bar => apply frame_finish_progress_bar
  | |- inv _ (finish _) => apply frame_finish
  | |- inv _ (ProgressCapture_init _ _ _) => apply frame_ProgressCapture_init
  | |- inv _ get_stdout => apply frame_get_stdout
  | |- inv _ (set_stdout _) => apply I_stdout
  | |- inv _ (stderr_write _) => apply I_stderr
  | |- inv _ (log_call _) => apply I_call; reflexivity
  | |- inv _ (run_ext _ _) => apply frame_run_ext; reflexivity
  | |- inv _ (call_ext _ _) => apply frame_call_ext; reflexivity
  | |- inv _ (get_duration_ffprobe _ _) => apply frame_get_duration_ffprobe
  | |- inv _ (try_finally _ _) => apply inv_try_finally
  | |- inv _ (try_except_else _ (on_Exception _) _) =>
      apply inv_try_except_else;
      [|let Hh := fresh in intros ? ? Hh; eapply inv_on_Exception; [intros ?|exact Hh]
       |intros ?]
  | |- inv _ (convert_progress_line _ _) => apply frame_convert_progress_line
  | |- inv _ (for_each _ _) => apply inv_for_each; intros ?
  | |- inv _ (if ?b then _ else _) => destruct b
  end.

Lemma frame_convert_video_to_audio env path temp :
  inv I (convert_video_to_audio env path temp).
Proof. unfold convert_video_to_audio. repeat frame_step. Qed.

Lemma frame_compress_audio_if_needed env path temp :
  inv I (compress_audio_if_needed env path temp).
Proof. unfold compress_audio_if_needed. repeat frame_step. Qed.

Lemma frame_run_transcription env audio model language :
  inv I (run_transcription env audio model language).
Proof. unfold run_transcription. repeat frame_step. Qed.

Ltac frame_body_step :=
  lazymatch goal with
  | |- inv _ (convert_video_to_audio _ _ _) => apply frame_convert_video_to_audio
  | |- inv _ (compress_audio_if_needed _ _ _) => apply frame_compress_audio_if_needed
  | |- inv _ (run_transcription _ _ _ _) => apply frame_run_transcription
  | |- _ => frame_step
  end.

Lemma frame_main_prepare_audio env temp : inv I (main_prepare_audio env temp).
Proof. unfold main_prepare_audio. repeat frame_body_step. Qed.

Lemma frame_main_export env duration_str segments :
  inv I (main_export env duration_str segments).
Proof. unfold main_export. repeat frame_body_step. Qed.


Lemma frame_main_handler e h : main_handler e = Some h -> inv I h.
Proof.
  destruct e; simpl; intros [= <-].
  - apply inv_bind; [apply frame_print|intros ?; apply I_stderr].
  - apply frame_print.
Qed.

End Frame.

(** ** Lines printed by external calls *)

Lemma stdout_write_eq (o : out) so t se ws cs :
  stdout_write o (mkWorld so t se ws cs)
    = (Ret tt, mkWorld so (stream_write so o t) se ws cs).
Proof. reflexivity. Qed.

Lemma print_eq (s : string) so t se ws cs :
  print s (mkWorld so t se ws cs)
    = (Ret tt, mkWorld so (stream_write so (Text LF) (stream_write so (Text s) t)) se ws cs).
Proof. reflexivity. Qed.

Lemma for_each_print_terminal (l : list string) (t : list out) se ws cs :
  for_each l print (mkWorld Terminal t se ws cs)
    = (Ret tt, mkWorld Terminal (t ++ print_outs l) se ws cs).
Proof.
  revert t. induction l as [|s l IH]; intros t; simpl.
  - by rewrite app_nil_r.
  - change (for_each (s :: l) print) with (bind (print s) (fun _ => for_each l print)).
    unfold bind at 1. rewrite print_eq. simpl stream_write.
    rewrite IH. by rewrite <-!app_assoc.
Qed.

Lemma stream_write_capture (name : string) (s e : Q) (text : string) (t : list out) :
  stream_write (Redirected (mkProgressCapture name s e Terminal)) (Text text) t
    = t ++ bars_of name s e [text].
Proof.
  unfold bars_of, local_pcts. simpl. destruct (search_pct text); simpl; [done|].
  by rewrite app_nil_r.
Qed.

Lemma bars_of_cons name s e text l :
  bars_of name s e (text :: l) = bars_of name s e [text] ++ bars_of name s e l.
Proof.
  unfold bars_of, local_pcts. simpl. by destruct (search_pct text).
Qed.

Lemma bars_of_app name s e l1 l2 :
  bars_of name s e (l1 ++ l2) = bars_of name s e l1 ++ bars_of name s e l2.
Proof. unfold bars_of, local_pcts. by rewrite omap_app, map_app. Qed.

Lemma for_each_print_capture (l : list string) name s e (t : list out) se ws cs :
  let st := Redirected (mkProgressCapture name s e Terminal) in
  for_each l print (mkWorld st t se ws cs)
    = (Ret tt, mkWorld st (t ++ bars_of name s e l) se ws cs).
Proof.
  intros st. revert t. induction l as [|x l IH]; intros t.
  - simpl. by rewrite app_nil_r.
  - rewrite bars_of_cons. change (for_each (x :: l) print) with (bind (print x) (fun _ => for_each l print)).
    unfold bind at 1.
    assert (print x (mkWorld st t se ws cs)
            = (Ret tt, mkWorld st (t ++ bars_of name s e [x]) se ws cs)) as ->.
    { rewrite print_eq. subst st. rewrite !stream_write_capture.
      change (bars_of name s e [LF]) with (@nil out). by rewrite app_nil_r. }
    rewrite IH. by rewrite <-app_assoc.
Qed.

(** ** Running the code step by step *)

Section Steps.
Context {B : Type}.
Implicit Types (k : unit -> M B) (t : list out) (se : list string)
  (ws : option string) (cs : list call) (so : stream).

Lemma step_bar label p k t se ws cs :
  bind (print_progress_bar label p) k (mkWorld Terminal t se ws cs)
    = k tt (mkWorld Terminal (t ++ [Bar label p]) se ws cs).
Proof. reflexivity. Qed.

Lemma step_finish_bar k t se ws cs :
  bind finish_progress_bar k (mkWorld Terminal t se ws cs)
    = k tt (mkWorld Terminal (t ++ [Text LF]) se ws cs).
Proof. reflexivity. Qed.

Lemma step_print s k t se ws cs :
  bind (print s) k (mkWorld Terminal t se ws cs)
    = k tt (mkWorld Terminal (t ++ [Text s; Text LF]) se ws cs).
Proof.
  unfold print, bind, stdout_write, get_stdout, write_to; simpl.
  by rewrite <-app_assoc.
Qed.

Lemma step_set_stdout st k so t se ws cs :
  bind (set_stdout st) k (mkWorld so t se ws cs) = k tt (mkWorld st t se ws cs).
Proof. reflexivity. Qed.

Lemma step_log_call c k so t se ws cs :
  bind (log_call c) k (mkWorld so t se ws cs) = k tt (mkWorld so t se ws (cs ++ [c])).
Proof. reflexivity. Qed.

Lemma step_set_workspace d k so t se ws cs :
  bind (set_workspace d) k (mkWorld so t se ws cs) = k tt (mkWorld so t se d cs).
Proof. reflexivity. Qed.

Lemma step_finish name s e k so t se ws cs :
  bind (finish (mkProgressCapture name s e Terminal)) k (mkWorld so t se ws cs)
    = k tt (mkWorld so (t ++ [Bar name e; Text LF]) se ws cs).
Proof.
  unfold finish, render_bar, bind, write_to; simpl. by rewrite <-app_assoc.
Qed.
End Steps.

Lemma step_get_stdout {B} (k : stream -> M B) so t se ws cs :
  bind get_stdout k (mkWorld so t se ws cs) = k so (mkWorld so t se ws cs).
Proof. reflexivity. Qed.

Lemma step_init {B} name s e (k : ProgressCapture -> M B) so t se ws cs :
  bind (ProgressCapture_init name s e) k (mkWorld so t se ws cs)
    = k (mkProgressCapture name s e so) (mkWorld so t se ws cs).
Proof. reflexivity. Qed.

Lemma lift_outcome_eq {A} (r : outcome A) (w : World) : lift_outcome r w = (r, w).
Proof. by destruct r. Qed.

Lemma call_ext_eq {A} (c : call) (r : outcome A) so t se ws cs :
  call_ext c r (mkWorld so t se ws cs) = (r, mkWorld so t se ws (cs ++ [c])).
Proof. unfold call_ext. rewrite step_log_call. apply lift_outcome_eq. Qed.

Lemma run_ext_terminal {A} (c : call) (r : ExtRun A) t se ws cs :
  run_ext c r (mkWorld Terminal t se ws cs)
    = (ext_result r, mkWorld Terminal (t ++ print_outs (ext_prints r)) se ws (cs ++ [c])).
Proof.
  unfold run_ext. rewrite step_log_call.
  unfold bind. rewrite for_each_print_terminal. apply lift_outcome_eq.
Qed.

Lemma run_ext_capture {A} (c : call) (r : ExtRun A) name s e t se ws cs :
  let st := Redirected (mkProgressCapture name s e Terminal) in
  run_ext c r (mkWorld st t se ws cs)
    = (ext_result r, mkWorld st (t ++ bars_of name s e (ext_prints r)) se ws (cs ++ [c])).
Proof.
  intros st. unfold run_ext. rewrite step_log_call.
  unfold bind. unfold st. rewrite for_each_print_capture. apply lift_outcome_eq.
Qed.


(** ** The progress aggregator *)

Lemma overall_pct_eq (s e p : Q) : (overall_pct s e p == s + p * (e - s) * (1 # 100))%Q.
Proof. unfold overall_pct. field. Qed.


Lemma overall_pct_upper (s e p : Q) : (s < e)%Q -> (p <= 100)%Q -> (overall_pct s e p <= e)%Q.
Proof.
  intros Hse Hp. rewrite overall_pct_eq.
  assert (0 <= (100 - p) * (e - s))%Q by (apply Qmult_le_0_compat; lra). lra.
Qed.


Lemma overall_pct_mono (s e p q : Q) :
  (s < e)%Q -> (p <= q)%Q -> (overall_pct s e p <= overall_pct s e q)%Q.
Proof.
  intros Hse Hp. rewrite !overall_pct_eq.
  assert (0 <= (q - p) * (e - s))%Q by (apply Qmult_le_0_compat; lra). lra.
Qed.

(** Writing to a stream that is a [ProgressCapture] is calling its [write]
    method on the characters written. *)
Lemma write_to_redirected (pc : ProgressCapture) (o : out) (w : World) :
  write_to (Redirected pc) o w = write pc (out_string o) w.
Proof.
  destruct pc as [name s e orig]. unfold write, write_to. simpl.
  destruct (search_pct (out_string o)); [reflexivity|].
  by destruct w.
Qed.

Example write_progress_line :
  terminal (snd (write (mkProgressCapture "Transcriptie" 15 70 Terminal)
                       "Progress: 45.67%..." initial_world))
  = [Bar "Transcriptie" (overall_pct 15 70 (4567 # 100))]
  /\ out_string (Bar "Transcriptie" (overall_pct 15 70 (4567 # 100)))
     = CR +:+ "  Transcriptie: [================>                       ]  40.12%".
Proof. split; vm_compute; reflexivity. Qed.





(** ** The declared phases *)

(** C5. The five declared sub-ranges, in the declared order: each is a
    proper interval (so the bounds increase along the list), each ends where
    the next one starts, two different phases share at most an end point,
    and a percentage lies in [[0,100]] exactly when it lies in one of
    them. *)
Theorem declared_phases_partition :
  map fst declared_phases
    = ["model-load"; "audio-load"; "inference"; "alignment"; "export"] /\
  (forall i n a b, declared_phases !! i = Some (n, (a, b)) -> (a < b)%Q) /\
  (forall i n1 a1 b1 n2 a2 b2,
     declared_phases !! i = Some (n1, (a1, b1)) ->
     declared_phases !! S i = Some (n2, (a2, b2)) -> b1 = a2) /\
  (forall i j n1 a1 b1 n2 a2 b2,
     (i < j)%nat ->
     declared_phases !! i = Some (n1, (a1, b1)) ->
     declared_phases !! j = Some (n2, (a2, b2)) -> (b1 <= a2)%Q) /\
  (forall x, (0 <= x <= 100)%Q <->
     exists n a b, (n, (a, b)) ∈ declared_phases /\ (a <= x <= b)%Q).
Proof.
  split; [reflexivity|]. split; [|split; [|split]].
  - intros i n a b H.
    do 5 (destruct i as [|i]; [inversion H; subst; reflexivity|]). inversion H.
  - intros i n1 a1 b1 n2 a2 b2 H1 H2.
    do 5 (destruct i as [|i]; [inversion H1; inversion H2; subst; reflexivity|]).
    inversion H1.
  - intros i j n1 a1 b1 n2 a2 b2 Hij H1 H2.
    do 5 (destruct i as [|i];
      [inversion H1; subst;
       do 5 (destruct j as [|j]; [try lia; inversion H2; subst; lra|]); inversion H2|]).
    inversion H1.
  - intros x. split.
    + intros [H0 H100].
      destruct (Qlt_le_dec x 10); [exists "model-load", 0%Q, 10%Q|
      destruct (Qlt_le_dec x 15); [exists "audio-load", 10%Q, 15%Q|
      destruct (Qlt_le_dec x 70); [exists "inference", 15%Q, 70%Q|
      destruct (Qlt_le_dec x 90); [exists "alignment", 70%Q, 90%Q|
                                   exists "export", 90%Q, 100%Q]]]];
      (split; [unfold declared_phases; set_solver|lra]).
    + intros (n & a & b & Hin & Hx). unfold declared_phases in Hin.
      repeat (apply elem_of_cons in Hin as [Hin|Hin]; [inversion Hin; subst; lra|]).
      by apply elem_of_nil in Hin.
Qed.

(** On the sample run, every bar the code shows lies in the declared
    sub-range of its phase, and the bounds of the phases are the first and the
    last bar of each label. *)
Example declared_phases_on_sample_run :
  forallb in_declared_range (terminal (snd (main audio_run initial_world))) = true /\
  shown_pcts (filter (fun o => in_declared_range o = true)
     (terminal (snd (main (sample_env ".mp3" 1000 (Ret None) []
                            (mkExtRun [] (Ret (sample_segments, None)))
                            (mkExtRun [] (Ret sample_segments)) (Ret tt))
                      initial_world))))
  = [0; 10; 10; 15; 70; 90; 90; 100]%Q.
Proof. split; vm_compute; reflexivity. Qed.

(** ** Sizes and durations *)

Lemma Qltb_lt (x y : Q) : Qltb x y = true <-> (x < y)%Q.
Proof.
  unfold Qltb. rewrite Qlt_alt. destruct (x ?= y)%Q; split; congruence.
Qed.


Lemma size_mb_below (n : Z) :
  Qltb (inject_Z n / inject_Z MB) 500 = true <-> n < 500 * MB.
Proof.
  rewrite Qltb_lt. unfold Qlt, Qdiv, Qmult, Qinv, inject_Z, MB. simpl. lia.
Qed.

(** Below 500 MB the path comes back as it is and nothing else happens. *)
Lemma compress_below_threshold (env : Env) (audio_path temp : string) (w : World) :
  getsize env audio_path < 500 * MB ->
  compress_audio_if_needed env audio_path temp w = (Ret audio_path, w).
Proof.
  intros H. unfold compress_audio_if_needed.
  apply size_mb_below in H. by rewrite H.
Qed.

(** From 500 MB on, ffmpeg is run on the file. *)
Lemma compress_from_threshold (env : Env) (audio_path temp : string) (w : World) :
  500 * MB <= getsize env audio_path ->
  let out_path := path_join temp "compressed_audio.wav" in
  calls (snd (compress_audio_if_needed env audio_path temp w))
    = calls w ++ [CallFfmpegCompress audio_path out_path] /\
  fst (compress_audio_if_needed env audio_path temp w)
    = (if compress_returncode env =? 0 then Ret out_path
       else Raise (PyException "CalledProcessError")).
Proof.
  intros H out_path. unfold compress_audio_if_needed.
  destruct (Qltb _ 500) eqn:Hlt; [apply size_mb_below in Hlt; lia|].
  destruct (compress_returncode env =? 0); split; reflexivity.
Qed.

(** The two sizes the specification names. *)
Lemma compress_501_and_499 (env : Env) (audio_path temp : string) (w : World) :
  (getsize env audio_path = 501 * MB ->
   calls (snd (compress_audio_if_needed env audio_path temp w))
     = calls w ++ [CallFfmpegCompress audio_path (path_join temp "compressed_audio.wav")]) /\
  (getsize env audio_path = 499 * MB ->
   compress_audio_if_needed env audio_path temp w = (Ret audio_path, w)).
Proof.
  split; intros H.
  - apply compress_from_threshold. rewrite H. unfold MB. lia.
  - apply compress_below_threshold. rewrite H. unfold MB. lia.
Qed.

(** C8 (the code at the boundary).  A file of exactly 500 MB, which does not
    exceed the threshold, is not returned unchanged: ffmpeg is run on it and
    the path of the re-encoded copy is returned. *)
Theorem compress_at_exactly_500MB (env : Env) (audio_path temp : string) (w : World) :
  getsize env audio_path = 524288000 ->
  compress_returncode env = 0 ->
  compress_audio_if_needed env audio_path temp w
    <> (Ret audio_path, w) /\
  fst (compress_audio_if_needed env audio_path temp w)
    = Ret (path_join temp "compressed_audio.wav") /\
  calls (snd (compress_audio_if_needed env audio_path temp w))
    = calls w ++ [CallFfmpegCompress audio_path (path_join temp "compressed_audio.wav")].
Proof.
  intros Hsize Hrc.
  destruct (compress_from_threshold env audio_path temp w) as [Hc Hr].
  { rewrite Hsize. unfold MB. lia. }
  rewrite Hrc in Hr. simpl in Hr. split; [|by split].
  intros Heq. rewrite Heq in Hc. simpl in Hc.
  apply (f_equal length) in Hc. rewrite length_app in Hc. simpl in Hc. lia.
Qed.

(** ** Duration of the input *)

Lemma get_duration_ffprobe_eq (env : Env) (path : string) so t se ws cs :
  get_duration_ffprobe env path (mkWorld so t se ws cs)
    = (match ffprobe env path with
       | Ret d => Ret d
       | Raise e => if is_Exception e then Ret None else Raise e
       end,
       mkWorld so t se ws (cs ++ [CallFfprobe path])).
Proof.
  unfold get_duration_ffprobe, try_except. rewrite call_ext_eq.
  destruct (ffprobe env path) as [d|e]; [done|].
  unfold on_Exception. by destruct (is_Exception e).
Qed.

(** A probe that fails, prints no number, or prints zero: the duration
    string is the placeholder and no estimate is printed. *)
Lemma unknown_duration_placeholder (env : Env) (w : World) :
  (ffprobe env (file_path env) = Ret None \/
   (exists m, ffprobe env (file_path env) = Raise (PyException m)) \/
   (exists d, ffprobe env (file_path env) = Ret (Some d) /\ (d == 0)%Q)) ->
  fst (main_file_info env w) = Ret "Onbekend" /\
  terminal (snd (main_file_info env w)) = terminal w.
Proof.
  destruct w as [so t se ws cs]. unfold main_file_info.
  intros [H|[[m H]|(d & H & Hd)]];
    (erewrite bind_ret_eq; [|rewrite get_duration_ffprobe_eq, H; reflexivity]);
    [done|done|].
  cbv beta. unfold truthy. apply Qeq_bool_iff in Hd. by rewrite Hd.
Qed.

(** Without a positive duration a line of ffmpeg's stderr renders nothing. *)
Lemma no_conversion_progress_without_duration (d : option Q) (line : string) (w : World) :
  known_positive d = false -> convert_progress_line d line w = (Ret tt, w).
Proof.
  intros H. unfold convert_progress_line.
  destruct (search_time line) as [[[h m] s]|]; [|done]. by rewrite H.
Qed.

Lemma known_positive_iff (d : option Q) :
  known_positive d = true <-> exists x, d = Some x /\ (0 < x)%Q.
Proof.
  destruct d as [x|]; simpl.
  - rewrite andb_true_iff, negb_true_iff, Qltb_lt. split.
    + intros [_ H]. eauto.
    + intros (y & [= <-] & H). split; [|done].
      apply not_true_iff_false. rewrite Qeq_bool_iff. lra.
  - split; [done|]. by intros (? & ? & _).
Qed.

(** C7 (the code on a negative duration).  When ffprobe prints [-5.0],
    [main] does not fall back to the placeholder: the duration string is
    [59:55] and an estimate of [-15] seconds is printed. *)
Theorem negative_duration_is_formatted (env : Env) (w : World) :
  ffprobe env (file_path env) = Ret (Some (-5)%Q) ->
  model_size env = "medium" ->
  sys_stdout w = Terminal ->
  fst (main_file_info env w) = Ret "59:55" /\
  terminal (snd (main_file_info env w))
    = terminal w ++ [Text "  Duur: 59:55"; Text LF;
                     Text "  Geschatte verwerkingstijd: ~-15 seconden"; Text LF].
Proof.
  intros Hp Hm Hs. destruct w as [so t se ws cs]. simpl in Hs. subst so.
  unfold main_file_info.
  erewrite bind_ret_eq; [|rewrite get_duration_ffprobe_eq, Hp; reflexivity].
  cbv beta. change (truthy (Some (-5)%Q)) with true. cbv iota.
  rewrite !step_print, Hm.
  change (format_timestamp (-5)) with "59:55".
  change (estimate_processing_time (-5) "medium") with "~-15 seconden".
  split; [reflexivity|]. unfold ret. simpl. by rewrite <-app_assoc.
Qed.

Lemma compress_at_exactly_500MB_witness :
  compress_audio_if_needed exactly_500MB_run "/in/talk.wav" "/tmp/x" initial_world
    <> (Ret "/in/talk.wav", initial_world) /\
  fst (compress_audio_if_needed exactly_500MB_run "/in/talk.wav" "/tmp/x" initial_world)
    = Ret (path_join "/tmp/x" "compressed_audio.wav") /\
  calls (snd (compress_audio_if_needed exactly_500MB_run "/in/talk.wav" "/tmp/x" initial_world))
    = calls initial_world
      ++ [CallFfmpegCompress "/in/talk.wav" (path_join "/tmp/x" "compressed_audio.wav")].
Proof.
  apply (compress_at_exactly_500MB exactly_500MB_run "/in/talk.wav" "/tmp/x" initial_world);
    reflexivity.
Defined.

Lemma negative_duration_is_formatted_witness :
  fst (main_file_info negative_duration_run initial_world) = Ret "59:55" /\
  terminal (snd (main_file_info negative_duration_run initial_world))
    = terminal initial_world
      ++ [Text "  Duur: 59:55"; Text LF;
          Text "  Geschatte verwerkingstijd: ~-15 seconden"; Text LF].
Proof.
  apply (negative_duration_is_formatted negative_duration_run initial_world); reflexivity.
Defined.

(** ** Cleanup of the temporary directory *)

Lemma calls_where_app (p : call -> bool) (w : World) (c : call) :
  calls_where p (snd (log_call c w))
    = calls_where p w ++ (if p c then [c] else []).
Proof.
  unfold calls_where. simpl. rewrite filter_app. f_equal.
  destruct (p c) eqn:Hc.
  - by rewrite filter_cons_True.
  - rewrite filter_cons_False; [done|]. by rewrite Hc.
Qed.

Lemma snd_try_finally {A} (body : M A) (fin : M unit) (w : World) :
  snd (try_finally body fin w) = snd (fin (snd (body w))).
Proof.
  unfold try_finally. destruct (body w) as [r w']. simpl.
  by destruct (fin w') as [[[]|e] w''].
Qed.


(** What the [finally] clause does, from any state. *)
Lemma main_cleanup_effect (env : Env) (temp : string) (w : World) :
  let r := main_cleanup env temp w in
  calls (snd r) = calls w ++ [CallRmtree temp] /\
  workspace (snd r)
    = match rmtree_result env with Ret _ => None | Raise _ => workspace w end /\
  fst r = match rmtree_result env with
          | Raise e => if is_Exception e then Ret tt else Raise e
          | Ret _ => Ret tt
          end.
Proof.
  unfold main_cleanup, try_except, bind, log_call, on_Exception.
  destruct (rmtree_result env) as [[]|e]; simpl; [done|].
  by destruct (is_Exception e).
Qed.



(** ** Export naming *)

Lemma length_append (s t : string) :
  String.length (s +:+ t) = (String.length s + String.length t)%nat.
Proof. induction s as [|c s IH]; [reflexivity|]. rewrite append_cons. simpl. by rewrite IH. Qed.

Lemma append_inj_r (s1 s2 t : string) : s1 +:+ t = s2 +:+ t -> s1 = s2.
Proof.
  revert s2. induction s1 as [|c s1 IH]; intros [|d s2] H.
  - reflexivity.
  - apply (f_equal String.length) in H. rewrite !length_append in H. simpl in H. lia.
  - apply (f_equal String.length) in H. rewrite !length_append in H. simpl in H. lia.
  - rewrite !append_cons in H. inversion H; subst. f_equal. by apply IH.
Qed.

(** Different counters give different paths. *)
Lemma suffixed_path_inj (dir stem : string) (j k : Z) :
  suffixed_path dir stem j = suffixed_path dir stem k -> j = k.
Proof.
  unfold suffixed_path, path_join, str_int. intros H.
  do 4 apply String.app_inj in H.
  apply append_inj_r in H. by apply (inj pretty) in H.
Qed.

(** When the loop stops, it stops at the first free candidate. *)
Lemma collision_loop_result (fuel : nat) (files : gset string) (dir stem p r : string) (c : Z) :
  collision_loop fuel files dir stem p c = Some r ->
  (r ∉ files) /\
  (((p ∉ files) /\ r = p) \/
   (p ∈ files /\ exists k, c <= k /\ r = suffixed_path dir stem k /\
      forall j, c <= j < k -> suffixed_path dir stem j ∈ files)).
Proof.
  revert p c. induction fuel as [|fuel IH]; intros p c; simpl.
  - destruct (decide (p ∈ files)); [done|]. intros [= <-]. auto.
  - destruct (decide (p ∈ files)) as [Hin|Hout]; [|intros [= <-]; auto].
    intros H. apply IH in H as [Hr [[Hfree ->]|(Hs & k & Hk & -> & Hbelow)]].
    + split; [done|]. right. split; [done|]. exists c. split; [lia|]. split; [done|].
      intros j Hj. lia.
    + split; [done|]. right. split; [done|]. exists k. split; [lia|]. split; [done|].
      intros j Hj. destruct (decide (j = c)) as [->|]; [done|]. apply Hbelow. lia.
Qed.

(** When the fuel runs out, every candidate tried exists. *)
Lemma collision_loop_exhausted (fuel : nat) (files : gset string) (dir stem p : string) (c : Z) :
  collision_loop fuel files dir stem p c = None ->
  forall i, (i < fuel)%nat -> suffixed_path dir stem (c + Z.of_nat i) ∈ files.
Proof.
  revert p c. induction fuel as [|fuel IH]; intros p c; simpl; [intros; lia|].
  destruct (decide (p ∈ files)) as [Hin|Hout]; [|done].
  intros H i Hi. destruct fuel as [|fuel'] eqn:Hf.
  - simpl in H. destruct (decide (suffixed_path dir stem c ∈ files)); [|done].
    assert (i = 0%nat) as -> by lia. by rewrite Z.add_0_r.
  - rewrite <-Hf in *.
    destruct i as [|i].
    + rewrite Z.add_0_r. rewrite Hf in H. simpl in H.
      by destruct (decide (suffixed_path dir stem c ∈ files)).
    + specialize (IH _ _ H i). replace (c + Z.of_nat (S i)) with (c + 1 + Z.of_nat i) by lia.
      apply IH. lia.
Qed.

(** The loop ends: there are only finitely many existing paths and the
    candidates are all different, so one more iteration than there are paths
    finds a free one. *)
Lemma collision_loop_terminates (files : gset string) (dir stem p : string) (c : Z) :
  is_Some (collision_loop (S (size files)) files dir stem p c).
Proof.
  destruct (collision_loop (S (size files)) files dir stem p c) as [r|] eqn:H; [eauto|].
  exfalso.
  pose proof (collision_loop_exhausted _ _ _ _ _ _ H) as Hall.
  set (f := fun i : nat => suffixed_path dir stem (c + Z.of_nat i)).
  assert (Inj (=) (=) f) as Hinj.
  { intros i j Hij. apply suffixed_path_inj in Hij. lia. }
  assert (f <$> seq 0 (S (size files)) ⊆+ elements files) as Hsub.
  { apply NoDup_submseteq.
    - apply (NoDup_fmap_2 f), NoDup_seq.
    - intros x Hx. apply list_elem_of_fmap in Hx as (i & -> & Hi).
      apply elem_of_seq in Hi. apply elem_of_elements, Hall. lia. }
  apply submseteq_length in Hsub. rewrite length_fmap, length_seq in Hsub.
  unfold size, set_size in Hsub. simpl in Hsub. lia.
Qed.

(** C9. The path [main] exports to never exists already; it is the
    canonical [<stem>.docx] when that is free, and otherwise [<stem>_k.docx]
    for the first [k = 1, 2, ...] that is free, all smaller suffixes being
    taken.  In particular with [talk.docx] and [talk_1.docx] taken and
    [talk_2.docx] free, the export for stem [talk] goes to [talk_2.docx]. *)
Theorem export_path_first_free (files : gset string) (dir stem : string) :
  let p := resolve_output_path files dir stem in
  (p ∉ files) /\
  (canonical_path dir stem ∉ files -> p = canonical_path dir stem) /\
  (canonical_path dir stem ∈ files ->
     exists k, 1 <= k /\ p = suffixed_path dir stem k /\
       forall j, 1 <= j < k -> suffixed_path dir stem j ∈ files) /\
  (stem = "talk" ->
   path_join dir "talk.docx" ∈ files -> path_join dir "talk_1.docx" ∈ files ->
   path_join dir "talk_2.docx" ∉ files ->
   p = path_join dir "talk_2.docx").
Proof.
  intros p. unfold p, resolve_output_path.
  destruct (collision_loop_terminates files dir stem (canonical_path dir stem) 1) as [r Hr].
  rewrite Hr. simpl.
  apply collision_loop_result in Hr as [Hfree Hcases].
  split; [done|]. split; [|split].
  - intros Hc. destruct Hcases as [[_ ->]|[Hin _]]; done.
  - intros Hc. destruct Hcases as [[Hout _]|[_ Hk]]; done.
  - intros -> H0 H1 H2.
    destruct Hcases as [[Hout _]|(_ & k & Hk & -> & Hbelow)]; [done|].
    destruct (decide (k = 1)) as [->|]; [done|].
    destruct (decide (k = 2)) as [->|]; [done|].
    specialize (Hbelow 2). exfalso. apply H2, Hbelow. lia.
Qed.

Lemma export_path_first_free_witness :
  let files : gset string :=
    {[ "/Users/u/Downloads/talk.docx"; "/Users/u/Downloads/talk_1.docx" ]} in
  resolve_output_path files "/Users/u/Downloads" "talk" = "/Users/u/Downloads/talk_2.docx".
Proof.
  intros files.
  apply (export_path_first_free files "/Users/u/Downloads" "talk");
    [reflexivity|..]; vm_compute; set_solver.
Defined.

(** ** The transcription pipeline, phase by phase *)

Ltac run_step :=
  first
    [ rewrite step_bar | rewrite step_finish_bar | rewrite step_print
    | rewrite step_set_stdout | rewrite step_log_call | rewrite step_set_workspace
    | rewrite step_finish | rewrite step_get_stdout | rewrite step_init ];
  cbv beta zeta.

Lemma try_finally_restore {A} (body : M A) (st : stream) (w : World) r so t se ws cs :
  body w = (r, mkWorld so t se ws cs) ->
  try_finally body (set_stdout st) w = (r, mkWorld st t se ws cs).
Proof. unfold try_finally. by intros ->. Qed.

Lemma try_except_else_eq {A B} (body : M A) (h : exn -> option (M B)) (els : A -> M B)
    (w : World) r w' :
  body w = (r, w') ->
  try_except_else body h els w
    = match r with
      | Ret a => els a w'
      | Raise e => match h e with Some h' => h' w' | None => (Raise e, w') end
      end.
Proof. unfold try_except_else. by intros ->. Qed.

(** The alignment phase proper, inside the redirection: the calls made and
    the bars rendered, whatever the outcome. *)
Lemma alignment_body_eq (env : Env) (lang : string) (segs : list Segment)
    (name : string) (s e : Q) t se ws cs :
  let st := Redirected (mkProgressCapture name s e Terminal) in
  (run_ext (CallLoadAlignModel lang) (load_align_model env) ;;
   run_ext (CallAlign segs) (align env)) (mkWorld st t se ws cs)
  = (alignment_outcome env,
     mkWorld st (t ++ bars_of name s e (alignment_prints env)) se ws
       (cs ++ [CallLoadAlignModel lang]
           ++ match ext_result (load_align_model env) with
              | Ret _ => [CallAlign segs]
              | Raise _ => []
              end)).
Proof.
  intros st. unfold alignment_outcome, alignment_prints.
  destruct (ext_result (load_align_model env)) as [[]|e'] eqn:Hl.
  - erewrite bind_ret_eq; [|subst st; rewrite run_ext_capture, Hl; reflexivity].
    subst st. rewrite run_ext_capture, bars_of_app, <-!app_assoc. reflexivity.
  - erewrite bind_raise_eq; [|subst st; rewrite run_ext_capture, Hl; reflexivity].
    by rewrite app_nil_r.
Qed.

(** [run_transcription] when the two loads and the inference succeed, for
    every outcome of the alignment: what it returns or raises, what the
    terminal has received, what [sys.stdout] is bound to at the end. *)
Lemma run_transcription_after_inference (env : Env) (audio model language : string)
    (t : list out) se ws cs (segs : list Segment) (lo : option string) :
  load_model env = Ret tt -> load_audio env = Ret tt ->
  ext_result (transcribe env) = Ret (segs, lo) ->
  let lang := default language lo in
  let t1 := t ++ pipeline_outs env lang segs in
  let cs1 := cs ++ pipeline_calls env audio model language lang segs in
  run_transcription env audio model language (mkWorld Terminal t se ws cs)
  = match alignment_outcome env with
    | Ret a =>
        (Ret (a, lang),
         mkWorld Terminal (t1 ++ [Bar "Uitlijning" 90; Text LF]) se ws cs1)
    | Raise e =>
        if is_Exception e
        then (Ret (segs, lang),
              mkWorld Terminal
                (t1 ++ [Text (alignment_warning (exn_str e)); Text LF;
                        Bar "Uitlijning" 90; Text LF]) se ws cs1)
        else (Raise e,
              mkWorld (Redirected (mkProgressCapture "Uitlijning" 70 90 Terminal))
                t1 se ws cs1)
    end.
Proof.
  intros Hm Ha Ht lang t1 cs1. unfold run_transcription.
  run_step.
  erewrite bind_ret_eq; [|rewrite call_ext_eq, Hm; reflexivity]. cbv beta.
  do 3 run_step.
  erewrite bind_ret_eq; [|rewrite call_ext_eq, Ha; reflexivity]. cbv beta.
  do 5 run_step.
  erewrite bind_ret_eq;
    [|eapply try_finally_restore; rewrite run_ext_capture, Ht; reflexivity].
  cbv beta zeta. cbn [fst snd]. fold lang.
  do 5 run_step.
  fold (language_line lang segs).
  subst t1 cs1. unfold pipeline_outs, pipeline_calls.
  destruct (alignment_outcome env) as [a|e] eqn:Hal.
  - erewrite bind_ret_eq;
      [|erewrite try_except_else_eq; [|rewrite alignment_body_eq, Hal; reflexivity];
        cbv beta iota; rewrite step_set_stdout; reflexivity].
    cbv beta. rewrite step_finish. unfold ret. rewrite <-!app_assoc. reflexivity.
  - unfold on_Exception. destruct (is_Exception e) eqn:He.
    + erewrite bind_ret_eq;
        [|erewrite try_except_else_eq; [|rewrite alignment_body_eq, Hal; reflexivity];
          cbv beta iota; rewrite He; rewrite step_set_stdout, step_print; reflexivity].
      cbv beta. rewrite step_finish. unfold ret. rewrite <-!app_assoc. reflexivity.
    + erewrite bind_raise_eq;
        [|erewrite try_except_else_eq; [|rewrite alignment_body_eq, Hal; reflexivity];
          cbv beta iota; rewrite He; reflexivity].
      rewrite <-!app_assoc. reflexivity.
Qed.

(** ** Redirection of the output stream *)

(** Inference: whatever the wrapped call does, [sys.stdout] is bound to
    the saved stream again afterwards. *)
Lemma inference_restores_stdout {A} (body : M A) (old_stdout : stream) (w : World) :
  sys_stdout (snd (try_finally body (set_stdout old_stdout) w)) = old_stdout.
Proof. unfold try_finally. by destruct (body w) as [r w']. Qed.

(** Alignment: [sys.stdout] is the terminal again when the phase returns
    and when it raises an [Exception]. *)
Lemma alignment_restores_stdout_on_Exception (env : Env) (audio model language : string)
    (w : World) (segs : list Segment) (lo : option string) :
  sys_stdout w = Terminal ->
  load_model env = Ret tt -> load_audio env = Ret tt ->
  ext_result (transcribe env) = Ret (segs, lo) ->
  (forall e, alignment_outcome env = Raise e -> is_Exception e = true) ->
  sys_stdout (snd (run_transcription env audio model language w)) = Terminal.
Proof.
  intros Hs Hm Ha Ht He. destruct w as [so t se ws cs]. simpl in Hs. subst so.
  rewrite (run_transcription_after_inference env audio model language t se ws cs segs lo)
    by done.
  destruct (alignment_outcome env) as [a|e]; [done|]. by rewrite (He e eq_refl).
Qed.

(** C3 (the code when the alignment is interrupted).  When the alignment
    phase raises something that is not an [Exception], such as
    [KeyboardInterrupt], [run_transcription] lets it through with
    [sys.stdout] still bound to the alignment's progress capture. *)
Theorem interrupted_alignment_keeps_redirection (env : Env)
    (audio model language : string) (w : World)
    (segs : list Segment) (lo : option string) (e : exn) :
  sys_stdout w = Terminal ->
  load_model env = Ret tt -> load_audio env = Ret tt ->
  ext_result (transcribe env) = Ret (segs, lo) ->
  alignment_outcome env = Raise e -> is_Exception e = false ->
  fst (run_transcription env audio model language w) = Raise e /\
  sys_stdout (snd (run_transcription env audio model language w))
    = Redirected (mkProgressCapture "Uitlijning" 70 90 Terminal).
Proof.
  intros Hs Hm Ha Ht Hal He. destruct w as [so t se ws cs]. simpl in Hs. subst so.
  rewrite (run_transcription_after_inference env audio model language t se ws cs segs lo)
    by done.
  rewrite Hal, He. by split.
Qed.

Lemma interrupted_alignment_keeps_redirection_witness :
  fst (run_transcription align_interrupted_run "/in/talk.mp3" "medium" "nl" initial_world)
    = Raise PyKeyboardInterrupt /\
  sys_stdout (snd (run_transcription align_interrupted_run "/in/talk.mp3" "medium" "nl"
                     initial_world))
    = Redirected (mkProgressCapture "Uitlijning" 70 90 Terminal).
Proof.
  apply (interrupted_alignment_keeps_redirection align_interrupted_run
           "/in/talk.mp3" "medium" "nl" initial_world sample_segments None PyKeyboardInterrupt);
    reflexivity.
Defined.

(** The later handler of [main] then prints into the capture: the
    interruption message never reaches the terminal, and [sys.stdout] is
    still redirected when [main] ends. *)
Example interruption_message_is_swallowed :
  let w := snd (main align_interrupted_run initial_world) in
  sys_stdout w = Redirected (mkProgressCapture "Uitlijning" 70 90 Terminal) /\
  (Text (LF +:+ LF +:+ "  Afgebroken door gebruiker.") ∉ terminal w) /\
  last (terminal w) = Some (Bar "Uitlijning" (overall_pct 70 90 (3333 # 100))).
Proof.
  vm_compute. split; [reflexivity|]. split; [|reflexivity].
  intros H. repeat (apply elem_of_cons in H as [H|H]; [discriminate H|]).
  by apply elem_of_nil in H.
Qed.

(** The same interruption during the inference is reported. *)
Example interruption_during_inference_is_reported :
  let env := sample_env ".mp3" 1000 (Ret (Some 60%Q)) []
               (mkExtRun ["Progress: 50.00%..."] (Raise PyKeyboardInterrupt))
               align_ok (Ret tt) in
  let w := snd (main env initial_world) in
  sys_stdout w = Terminal /\
  Text (LF +:+ LF +:+ "  Afgebroken door gebruiker.") ∈ terminal w.
Proof.
  vm_compute. split; [reflexivity|].
  repeat first [apply list_elem_of_here | apply list_elem_of_further].
Qed.

(** ** The terminal and the list of calls only grow *)

Lemma stream_write_extends (st : stream) (o : out) (t : list out) :
  exists l, stream_write st o t = t ++ l.
Proof.
  revert o.
  apply (stream_mut
           (fun st => forall o, exists l, stream_write st o t = t ++ l)
           (fun pc => forall o, exists l, stream_write (Redirected pc) o t = t ++ l)).
  - intros o. simpl. eauto.
  - intros pc IH o. apply IH.
  - intros name s e orig IH o. simpl.
    destruct (search_pct (out_string o)); [apply IH|].
    exists []. by rewrite app_nil_r.
Qed.

(** What the terminal has received stays there. *)
Section OnTerminal.
Variable o : out.
Let I : World -> Prop := fun w => o ∈ terminal w.

Lemma on_terminal_write st o' : inv I (write_to st o').
Proof.
  intros w Hw. unfold I in *. simpl.
  destruct (stream_write_extends st o' (terminal w)) as [l ->].
  apply elem_of_app. by left.
Qed.

Lemma on_terminal_main_export env d segs : inv I (main_export env d segs).
Proof.
  apply frame_main_export;
    first [apply on_terminal_write|by intros c Hc w Hw|by intros s w Hw].
Qed.

Lemma on_terminal_main_handler e h : main_handler e = Some h -> inv I h.
Proof.
  apply frame_main_handler;
    first [apply on_terminal_write|by intros s w Hw].
Qed.
End OnTerminal.

(** A call that has been made stays in the list of calls. *)
Section InCalls.
Variable c : call.
Let I : World -> Prop := fun w => c ∈ calls w.

Lemma in_calls_log c' : inv I (log_call c').
Proof. intros w Hw. unfold I in *. simpl. apply elem_of_app. by left. Qed.

Lemma in_calls_main_handler e h : main_handler e = Some h -> inv I h.
Proof.
  apply frame_main_handler;
    first [by intros st o' w Hw|by intros s w Hw].
Qed.
End InCalls.

Lemma try_except_after {A} (I : World -> Prop) (body : M A) (h : exn -> option (M A))
    (w : World) :
  (forall e h', h e = Some h' -> inv I h') ->
  I (snd (body w)) -> I (snd (try_except body h w)).
Proof.
  intros Hh Hb. unfold try_except. destruct (body w) as [[a|e] w']; simpl in *; [done|].
  destruct (h e) as [h'|] eqn:He; [by eapply Hh|done].
Qed.

Lemma main_processing_snd (env : Env) (d : string) so t se ws cs :
  snd (main_processing env d (mkWorld so t se ws cs))
  = snd (main_cleanup env (temp_dir env)
           (snd (try_except (main_try_body env d (temp_dir env)) main_handler
                   (mkWorld so t se (Some (temp_dir env)) cs)))).
Proof. unfold main_processing. rewrite step_set_workspace. apply snd_try_finally. Qed.

Lemma main_cleanup_terminal (env : Env) (temp : string) (w : World) :
  terminal (snd (main_cleanup env temp w)) = terminal w.
Proof.
  unfold main_cleanup, try_except, bind, log_call, on_Exception.
  destruct (rmtree_result env) as [[]|e]; simpl; [done|].
  by destruct (is_Exception e).
Qed.

(** ** The steps before the transcription *)

Lemma convert_lines_terminal (d : option Q) (lines : list string) t se ws cs :
  exists t', for_each lines (convert_progress_line d) (mkWorld Terminal t se ws cs)
             = (Ret tt, mkWorld Terminal t' se ws cs).
Proof.
  revert t. induction lines as [|line lines IH]; intros t; [by exists t|].
  change (for_each (line :: lines) (convert_progress_line d))
    with (bind (convert_progress_line d line) (fun _ => for_each lines (convert_progress_line d))).
  assert (exists t1, convert_progress_line d line (mkWorld Terminal t se ws cs)
                     = (Ret tt, mkWorld Terminal t1 se ws cs)) as [t1 H1].
  { unfold convert_progress_line.
    destruct (search_time line) as [[[h m] s]|]; [|by exists t].
    destruct (known_positive d); [|by exists t].
    destruct d as [x|]; [|by exists t]. eexists. reflexivity. }
  erewrite bind_ret_eq by exact H1. apply IH.
Qed.

Lemma get_duration_ffprobe_ok (env : Env) (path : string) so t se ws cs :
  preprocessing_succeeds env ->
  exists d, get_duration_ffprobe env path (mkWorld so t se ws cs)
            = (Ret d, mkWorld so t se ws (cs ++ [CallFfprobe path])).
Proof.
  intros (Hp & _ & _). rewrite get_duration_ffprobe_eq.
  destruct (ffprobe env path) as [d|e] eqn:H; [eauto|].
  rewrite (Hp _ _ H). eauto.
Qed.

Lemma convert_video_to_audio_ok (env : Env) (path temp : string) t se ws cs :
  preprocessing_succeeds env -> ffmpeg_returncode env = 0 ->
  exists a t' cs', convert_video_to_audio env path temp (mkWorld Terminal t se ws cs)
                   = (Ret a, mkWorld Terminal t' se ws cs').
Proof.
  intros Hpre Hrc. unfold convert_video_to_audio.
  destruct (get_duration_ffprobe_ok env path Terminal t se ws cs Hpre) as [d Hd].
  erewrite bind_ret_eq by exact Hd. cbv beta. rewrite step_log_call.
  destruct (convert_lines_terminal d (ffmpeg_stderr env) t se ws
              ((cs ++ [CallFfprobe path])
                 ++ [CallFfmpegConvert path (path_join temp (file_stem env +:+ ".wav"))]))
    as [t' Hl].
  erewrite bind_ret_eq by exact Hl. cbv beta. rewrite Hrc.
  change (negb (0 =? 0)) with false. cbv iota.
  erewrite bind_ret_eq by reflexivity. cbv beta.
  rewrite step_bar, step_finish_bar. eexists _, _, _. reflexivity.
Qed.

Lemma compress_audio_if_needed_ok (env : Env) (path temp : string) t se ws cs :
  preprocessing_succeeds env ->
  exists a t' cs', compress_audio_if_needed env path temp (mkWorld Terminal t se ws cs)
                   = (Ret a, mkWorld Terminal t' se ws cs').
Proof.
  intros (_ & _ & Hc). unfold compress_audio_if_needed.
  destruct (Qltb _ 500) eqn:Hlt.
  - eexists _, _, _. reflexivity.
  - rewrite step_print, step_log_call.
    rewrite (Hc path).
    + change (negb (0 =? 0)) with false. cbv iota.
      erewrite bind_ret_eq by reflexivity. cbv beta.
      rewrite step_print. eexists _, _, _. reflexivity.
    + destruct (Z_lt_le_dec (getsize env path) (500 * MB)) as [Hlt'|]; [|done].
      apply size_mb_below in Hlt'. congruence.
Qed.

Lemma bind_assoc {A B C} (m : M A) (k1 : A -> M B) (k2 : B -> M C) (w : World) :
  bind (bind m k1) k2 w = bind m (fun x => bind (k1 x) k2) w.
Proof. unfold bind. by destruct (m w) as [[a|e] w']. Qed.

Lemma main_prepare_audio_ok (env : Env) (temp : string) t se ws cs :
  preprocessing_succeeds env ->
  exists a t' cs', main_prepare_audio env temp (mkWorld Terminal t se ws cs)
                   = (Ret a, mkWorld Terminal t' se ws cs').
Proof.
  intros Hpre. unfold main_prepare_audio.
  destruct (is_video (file_suffix env)) eqn:Hv.
  - rewrite bind_assoc, step_print.
    destruct (convert_video_to_audio_ok env (file_path env) temp
                (t ++ [Text "  Video gedetecteerd, audio extraheren..."; Text LF]) se ws cs)
      as (a & t' & cs' & H); [done|by apply Hpre|].
    erewrite bind_ret_eq by exact H. by apply compress_audio_if_needed_ok.
  - erewrite bind_ret_eq by reflexivity. by apply compress_audio_if_needed_ok.
Qed.

(** ** The export step *)

(** The export step calls the exporter with the segments it is given and
    the resolved path, whatever the exporter then does. *)
Lemma main_export_calls (env : Env) (d : string) (segs : list Segment) t se ws cs :
  let md := {| md_title := file_stem env; md_filename := file_name env;
               md_duration_str := d; md_model := model_size env;
               md_language := language_name env |} in
  let path := resolve_output_path (existing env) (downloads env) (file_stem env) in
  CallExport segs md path
    ∈ calls (snd (main_export env d segs (mkWorld Terminal t se ws cs))).
Proof.
  intros md path. unfold main_export. rewrite step_bar. fold md path.
  destruct (export_result env) as [[]|e] eqn:He.
  - erewrite bind_ret_eq; [|rewrite call_ext_eq; reflexivity]. cbv beta.
    do 9 run_step. unfold log_call. simpl. set_solver.
  - erewrite bind_raise_eq; [|rewrite call_ext_eq; reflexivity]. simpl. set_solver.
Qed.


(** ** Failure of the alignment *)

(** C2. In a run that reaches the alignment phase, when that phase raises
    an error (loading the alignment model or aligning), [run_transcription]
    does not raise: it returns exactly the segments of the inference phase,
    with [sys.stdout] bound to the terminal again and the warning on the
    terminal; and [main] goes on to the export step, which hands these same
    segments to the exporter. *)
Theorem alignment_failure_falls_back (env : Env) (d : string) (w : World)
    (segs : list Segment) (lo : option string) (msg : string) :
  sys_stdout w = Terminal ->
  preprocessing_succeeds env ->
  load_model env = Ret tt -> load_audio env = Ret tt ->
  ext_result (transcribe env) = Ret (segs, lo) ->
  alignment_outcome env = Raise (PyException msg) ->
  (forall audio model language w0,
     sys_stdout w0 = Terminal ->
     let r := run_transcription env audio model language w0 in
     fst r = Ret (segs, default language lo) /\
     sys_stdout (snd r) = Terminal /\
     Text (alignment_warning msg) ∈ terminal (snd r)) /\
  (let w' := snd (main_processing env d w) in
   Text (alignment_warning msg) ∈ terminal w' /\
   exists md,
     CallExport segs md (resolve_output_path (existing env) (downloads env) (file_stem env))
       ∈ calls w').
Proof.
  intros Hs Hpre Hm Ha Ht Hal.
  assert (forall audio model language t se ws cs,
            exists t' cs',
              run_transcription env audio model language (mkWorld Terminal t se ws cs)
                = (Ret (segs, default language lo), mkWorld Terminal t' se ws cs') /\
              Text (alignment_warning msg) ∈ t') as Hrun.
  { intros audio model language t se ws cs.
    rewrite (run_transcription_after_inference env audio model language t se ws cs segs lo)
      by done.
    rewrite Hal. simpl is_Exception. cbv iota. eexists _, _. split; [reflexivity|].
    simpl exn_str. set_solver. }
  split.
  - intros audio model language [so t se ws cs] Hs0 r. simpl in Hs0. subst so.
    destruct (Hrun audio model language t se ws cs) as (t' & cs' & Hr & Hin).
    subst r. rewrite Hr. by simpl.
  - destruct w as [so t se ws cs]. simpl in Hs. subst so. cbv zeta.
    rewrite main_processing_snd.
    set (temp := temp_dir env).
    (* the state and the segments with which the export step starts *)
    assert (exists d' t2 cs2,
              snd (main_try_body env d temp (mkWorld Terminal t se (Some temp) cs))
                = snd (main_export env d' segs (mkWorld Terminal t2 se (Some temp) cs2)) /\
              Text (alignment_warning msg) ∈ t2) as (d' & t2 & cs2 & Hbody & Hin).
    { unfold main_try_body. rewrite !step_print.
      destruct (main_prepare_audio_ok env temp
                  ((t ++ [Text "Verwerking gestart..."; Text LF]) ++ [Text ""; Text LF])
                  se (Some temp) cs Hpre) as (a & t0 & cs0 & H0).
      erewrite bind_ret_eq by exact H0. cbv beta.
      destruct (get_duration_ffprobe_ok env a Terminal t0 se (Some temp) cs0 Hpre) as [ad Had].
      erewrite bind_ret_eq by exact Had. cbv beta zeta.
      destruct (Hrun a (model_size env) (language_code env) t0 se (Some temp)
                  (cs0 ++ [CallFfprobe a])) as (t2 & cs2 & Hr & Hin).
      erewrite bind_ret_eq by exact Hr. cbv beta. cbn [fst].
      by exists (audio_duration_str ad d), t2, cs2. }
    split.
    + rewrite main_cleanup_terminal.
      apply (try_except_after (fun w => Text (alignment_warning msg) ∈ terminal w)).
      { apply on_terminal_main_handler. }
      rewrite Hbody. by apply on_terminal_main_export.
    + set (md := {| md_title := file_stem env; md_filename := file_name env;
                    md_duration_str := d'; md_model := model_size env;
                    md_language := language_name env |}).
      set (c := CallExport segs md
                  (resolve_output_path (existing env) (downloads env) (file_stem env))).
      exists md. fold c.
      destruct (main_cleanup_effect env temp
                  (snd (try_except (main_try_body env d temp) main_handler
                          (mkWorld Terminal t se (Some temp) cs)))) as (Hc & _).
      rewrite Hc. apply elem_of_app. left.
      apply (try_except_after (fun w => c ∈ calls w)).
      { apply in_calls_main_handler. }
      rewrite Hbody. apply main_export_calls.
Qed.

Lemma alignment_failure_falls_back_witness :
  (forall audio model language w0,
     sys_stdout w0 = Terminal ->
     let r := run_transcription align_fails_run audio model language w0 in
     fst r = Ret (sample_segments, default language None) /\
     sys_stdout (snd r) = Terminal /\
     Text (alignment_warning "No align-model for language") ∈ terminal (snd r)) /\
  (let w' := snd (main_processing align_fails_run "01:00" initial_world) in
   Text (alignment_warning "No align-model for language") ∈ terminal w' /\
   exists md,
     CallExport sample_segments md
       (resolve_output_path (existing align_fails_run) (downloads align_fails_run)
          (file_stem align_fails_run))
       ∈ calls w').
Proof.
  apply (alignment_failure_falls_back align_fails_run "01:00" initial_world
           sample_segments None "No align-model for language"); try reflexivity.
  split; [|split].
  - intros p e H. discriminate H.
  - intros H. discriminate H.
  - intros p H. vm_compute in H. by destruct H.
Defined.

(** ** Rising percentages *)

Lemma chain_bounds lo l hi : chain lo l hi -> (lo <= hi)%Q.
Proof.
  revert lo. induction l as [|x l IH]; intros lo; simpl; [done|].
  intros [H1 H2]. apply IH in H2. lra.
Qed.

Lemma chain_app a l1 b l2 c : chain a l1 b -> chain b l2 c -> chain a (l1 ++ l2) c.
Proof.
  revert a. induction l1 as [|x l1 IH]; intros a; simpl.
  - intros Hab. destruct l2 as [|y l2]; simpl; [lra|]. intros [H1 H2]. split; [lra|done].
  - intros [H1 H2] H3. split; [done|]. by apply IH.
Qed.

Lemma chain_weaken a l b c : chain a l b -> (b <= c)%Q -> chain a l c.
Proof.
  revert a. induction l as [|x l IH]; intros a; simpl; [lra|].
  intros [H1 H2] Hbc. split; [done|]. by apply IH.
Qed.

Lemma chain_snoc a l b x : chain a l b -> (b <= x)%Q -> chain a (l ++ [x]) x.
Proof.
  intros H Hx. eapply chain_app; [exact H|]. simpl. split; [done|lra].
Qed.

Lemma chain_rescale (s e : Q) lo (l : list Q) :
  (s < e)%Q -> (0 <= lo)%Q -> chain lo l 100 ->
  chain (overall_pct s e lo) (map (overall_pct s e) l) e.
Proof.
  intros Hse. revert lo. induction l as [|x l IH]; intros lo Hlo; simpl.
  - intros H. by apply overall_pct_upper.
  - intros [H1 H2]. split; [by apply overall_pct_mono|]. apply IH; [lra|done].
Qed.

Lemma chain_forall lo l hi x : chain lo l hi -> x ∈ l -> (lo <= x <= hi)%Q.
Proof.
  revert lo. induction l as [|y l IH]; intros lo H Hx; [by apply elem_of_nil in Hx|].
  destruct H as [H1 H2]. apply elem_of_cons in Hx as [->|Hx].
  - apply chain_bounds in H2. lra.
  - destruct (IH _ H2 Hx). lra.
Qed.

Lemma chain_nondecreasing lo l hi : chain lo l hi -> nondecreasing l.
Proof.
  revert lo. induction l as [|z l IH]; intros lo H i j x y Hij Hi Hj; [done|].
  destruct H as [H1 H2]. destruct j as [|j]; [lia|]. simpl in Hj.
  destruct i as [|i]; simpl in Hi.
  - inversion Hi; subst. apply list_elem_of_lookup_2 in Hj.
    by destruct (chain_forall _ _ _ _ H2 Hj).
  - apply (IH _ H2 i j); [lia|done|done].
Qed.

Lemma shown_pcts_app l1 l2 : shown_pcts (l1 ++ l2) = shown_pcts l1 ++ shown_pcts l2.
Proof.
  induction l1 as [|[label p|s] l1 IH]; simpl; [done| |done]. by rewrite IH.
Qed.

Lemma shown_pcts_bars_of name s e prints :
  shown_pcts (bars_of name s e prints) = map (overall_pct s e) (local_pcts prints).
Proof.
  unfold bars_of. induction (local_pcts prints) as [|p l IH]; simpl; [done|]. by rewrite IH.
Qed.

(** The bars of one intercepted phase rise from the phase's start to its
    end. *)
Lemma chain_bars_of name s e prints :
  (s < e)%Q -> steady_progress prints ->
  chain s (shown_pcts (bars_of name s e prints)) e.
Proof.
  intros Hse H. rewrite shown_pcts_bars_of.
  assert (overall_pct s e 0 == s)%Q as Hs by (unfold overall_pct; field).
  pose proof (chain_rescale s e 0 _ Hse (Qle_refl 0) H) as Hc.
  clear H. revert Hc. generalize (map (overall_pct s e) (local_pcts prints)).
  intros [|x l]; simpl; [lra|]. intros [H1 H2]. split; [lra|done].
Qed.

(** ** Rules for [advances] and [quiet] *)

Lemma Shown_weaken a b w : Shown a w -> (a <= b)%Q -> Shown b w.
Proof. intros [H1 H2] Hab. split; [done|]. by eapply chain_weaken. Qed.

Lemma Shown_Ended b e w : Shown b w -> Ended b e w.
Proof. intros [H1 H2]. split; [done|]. by left. Qed.

Lemma Ended_weaken a b e w : Ended a e w -> (a <= b)%Q -> Ended b e w.
Proof. intros [H1 H2] Hab. split; [|done]. by eapply chain_weaken. Qed.

Lemma quiet_advances {A} a b (m : M A) : quiet a b m -> advances a b m.
Proof.
  intros H w Hw. specialize (H w Hw).
  destruct (fst (m w)); [done|by apply Shown_Ended].
Qed.

Lemma advances_bind {A B} a b c (m : M A) (k : A -> M B) :
  advances a b m -> (b <= c)%Q -> (forall x, advances b c (k x)) ->
  advances a c (bind m k).
Proof.
  intros Hm Hbc Hk w Hw. specialize (Hm w Hw). unfold bind.
  destruct (m w) as [[x|e] w']; simpl in *.
  - by apply Hk.
  - by eapply Ended_weaken.
Qed.

Lemma quiet_bind {A B} a b c (m : M A) (k : A -> M B) :
  quiet a b m -> (b <= c)%Q -> (forall x, quiet b c (k x)) -> quiet a c (bind m k).
Proof.
  intros Hm Hbc Hk w Hw. specialize (Hm w Hw). unfold bind.
  destruct (m w) as [[x|e] w']; simpl in *.
  - by apply Hk.
  - by eapply Shown_weaken.
Qed.

Lemma quiet_ret {A} a (x : A) : quiet a a (ret x).
Proof. by intros w Hw. Qed.

Lemma quiet_raise {A} a (e : exn) : quiet a a (@raise A e).
Proof. by intros w Hw. Qed.

Lemma quiet_lift_outcome {A} a (r : outcome A) : quiet a a (lift_outcome r).
Proof. destruct r; [apply quiet_ret|apply quiet_raise]. Qed.

Lemma quiet_log_call a c : quiet a a (log_call c).
Proof. by intros w Hw. Qed.

Lemma quiet_set_workspace a d : quiet a a (set_workspace d).
Proof. by intros w Hw. Qed.

Lemma quiet_stderr_write a s : quiet a a (stderr_write s).
Proof. by intros w Hw. Qed.

Lemma quiet_call_ext {A} a c (r : outcome A) : quiet a a (call_ext c r).
Proof.
  unfold call_ext. eapply quiet_bind; [apply quiet_log_call|lra|].
  intros _. apply quiet_lift_outcome.
Qed.

Lemma quiet_print a s : quiet a a (print s).
Proof.
  intros [so t se ws cs] [Hs Hc]. simpl in Hs, Hc. subst so.
  rewrite print_eq. split; [done|]. simpl.
  rewrite !shown_pcts_app. simpl. by rewrite !app_nil_r.
Qed.

Lemma quiet_finish_progress_bar a : quiet a a finish_progress_bar.
Proof.
  intros [so t se ws cs] [Hs Hc]. simpl in Hs, Hc. subst so.
  unfold finish_progress_bar. rewrite stdout_write_eq. split; [done|]. simpl.
  rewrite shown_pcts_app. simpl. by rewrite app_nil_r.
Qed.

Lemma quiet_print_progress_bar a label p :
  (a <= p)%Q -> quiet a p (print_progress_bar label p).
Proof.
  intros Hp [so t se ws cs] [Hs Hc]. simpl in Hs, Hc. subst so.
  unfold print_progress_bar. rewrite stdout_write_eq. split; [done|]. simpl.
  rewrite shown_pcts_app. simpl. by eapply chain_snoc.
Qed.

Lemma quiet_get_duration_ffprobe a env path : quiet a a (get_duration_ffprobe env path).
Proof.
  intros [so t se ws cs] Hw. rewrite get_duration_ffprobe_eq. exact Hw.
Qed.

Lemma quiet_if {A} a b (c : bool) (m1 m2 : M A) :
  quiet a b m1 -> quiet a b m2 -> quiet a b (if c then m1 else m2).
Proof. by destruct c. Qed.

(** The syntax-directed step for programs that only write to the terminal. *)
Ltac quiet_step :=
  cbv beta zeta;
  lazymatch goal with
  | |- quiet ?a _ (bind (print_progress_bar _ ?p) _) =>
      apply (quiet_bind a p); [apply quiet_print_progress_bar; lra|lra|intros ?]
  | |- quiet ?a _ (bind _ _) => apply (quiet_bind a a); [|lra|intros ?]
  | |- quiet _ _ (print_progress_bar _ _) => apply quiet_print_progress_bar; lra
  | |- quiet _ _ (print _) => apply quiet_print
  | |- quiet _ _ finish_progress_bar => apply quiet_finish_progress_bar
  | |- quiet _ _ (ret _) => apply quiet_ret
  | |- quiet _ _ (raise _) => apply quiet_raise
  | |- quiet _ _ (log_call _) => apply quiet_log_call
  | |- quiet _ _ (call_ext _ _) => apply quiet_call_ext
  | |- quiet _ _ (get_duration_ffprobe _ _) => apply quiet_get_duration_ffprobe
  | |- quiet _ _ (if _ then _ else _) => apply quiet_if
  end.

Lemma quiet_compress_audio_if_needed a env path temp :
  quiet a a (compress_audio_if_needed env path temp).
Proof. unfold compress_audio_if_needed. repeat quiet_step. Qed.

Lemma quiet_main_prepare_audio a env temp :
  is_video (file_suffix env) = false -> quiet a a (main_prepare_audio env temp).
Proof.
  intros Hv. unfold main_prepare_audio. rewrite Hv.
  quiet_step; [quiet_step|]. apply quiet_compress_audio_if_needed.
Qed.

Lemma quiet_main_export env d segs : quiet 90 100 (main_export env d segs).
Proof.
  unfold main_export. quiet_step. quiet_step; [quiet_step|].
  apply (quiet_bind 90 100); [apply quiet_print_progress_bar; lra|lra|intros ?].
  repeat quiet_step.
Qed.

Lemma quiet_main_file_info a env : quiet a a (main_file_info env).
Proof.
  unfold main_file_info.
  apply (quiet_bind a a); [apply quiet_get_duration_ffprobe|lra|intros duration].
  destruct (truthy duration); [|apply quiet_ret].
  destruct duration; [|apply quiet_ret]. repeat quiet_step.
Qed.

Lemma chain_shown_app a b c t l :
  chain a (shown_pcts t) b -> chain b (shown_pcts l) c -> chain a (shown_pcts (t ++ l)) c.
Proof. intros H1 H2. rewrite shown_pcts_app. by eapply chain_app. Qed.

(** The bars of [run_transcription] rise from 0 to 90 at most, on every
    path through it, when the progress reported by the inference and by the
    alignment is steady. *)
Lemma advances_run_transcription (env : Env) (audio model language : string) :
  steady_progress (ext_prints (transcribe env)) ->
  steady_progress (alignment_prints env) ->
  advances 0 90 (run_transcription env audio model language).
Proof.
  intros Htr Hal [so t se ws cs] [Hs Hc]. simpl in Hs, Hc. subst so.
  pose proof (chain_bars_of "Transcriptie" 15 70 _ ltac:(lra) Htr) as HT.
  pose proof (chain_bars_of "Uitlijning" 70 90 _ ltac:(lra) Hal) as HA.
  destruct (load_model env) as [[]|e1] eqn:Hm.
  2:{ unfold run_transcription. run_step.
      erewrite bind_raise_eq; [|rewrite call_ext_eq, Hm; reflexivity].
      split; [|by left]. simpl.
      eapply chain_shown_app; [exact Hc|]. simpl. lra. }
  destruct (load_audio env) as [[]|e2] eqn:Ha.
  2:{ unfold run_transcription. run_step.
      erewrite bind_ret_eq; [|rewrite call_ext_eq, Hm; reflexivity]. cbv beta.
      do 3 run_step.
      erewrite bind_raise_eq; [|rewrite call_ext_eq, Ha; reflexivity].
      split; [|by left]. simpl. rewrite <-!app_assoc.
      eapply chain_shown_app; [exact Hc|]. simpl. lra. }
  destruct (ext_result (transcribe env)) as [[segs lo]|e3] eqn:Ht.
  2:{ unfold run_transcription. run_step.
      erewrite bind_ret_eq; [|rewrite call_ext_eq, Hm; reflexivity]. cbv beta.
      do 3 run_step.
      erewrite bind_ret_eq; [|rewrite call_ext_eq, Ha; reflexivity]. cbv beta.
      do 5 run_step.
      erewrite bind_raise_eq;
        [|eapply try_finally_restore; rewrite run_ext_capture, Ht; reflexivity].
      split; [|by left]. simpl. rewrite <-!app_assoc.
      eapply chain_shown_app; [exact Hc|].
      eapply (chain_shown_app 0 15 90 [_; _; _; _; _; _]); [simpl; lra|].
      by eapply chain_weaken; [exact HT|]. }
  rewrite (run_transcription_after_inference env audio model language t se ws cs segs lo)
    by done.
  assert (chain 0 (shown_pcts (t ++ pipeline_outs env (default language lo) segs)) 90) as Hp.
  { eapply chain_shown_app; [exact Hc|]. unfold pipeline_outs.
    eapply (chain_shown_app 0 15 90 [_; _; _; _; _; _]); [simpl; lra|].
    eapply chain_shown_app; [exact HT|].
    eapply (chain_shown_app 70 70 90 [_; _; _; _]); [simpl; lra|exact HA]. }
  destruct (alignment_outcome env) as [a|e].
  - split; [done|]. simpl. eapply chain_shown_app; [exact Hp|]. simpl. lra.
  - destruct (is_Exception e) eqn:He.
    + split; [done|]. simpl. eapply chain_shown_app; [exact Hp|]. simpl. lra.
    + split; [exact Hp|by right].
Qed.

(** The [try] block of [main] on an audio file: the bars rise from 0 to
    100 at most. *)
Lemma advances_main_try_body (env : Env) (d temp : string) :
  is_video (file_suffix env) = false ->
  steady_progress (ext_prints (transcribe env)) ->
  steady_progress (alignment_prints env) ->
  advances 0 100 (main_try_body env d temp).
Proof.
  intros Hv Htr Hal. unfold main_try_body.
  apply (advances_bind 0 0); [apply quiet_advances, quiet_print|lra|intros _].
  apply (advances_bind 0 0); [apply quiet_advances, quiet_print|lra|intros _].
  apply (advances_bind 0 0);
    [by apply quiet_advances, quiet_main_prepare_audio|lra|intros audio].
  apply (advances_bind 0 0);
    [apply quiet_advances, quiet_get_duration_ffprobe|lra|intros ad].
  cbv zeta.
  apply (advances_bind 0 90); [by apply advances_run_transcription|lra|intros r].
  apply quiet_advances, quiet_main_export.
Qed.

Lemma print_without_percentage (s : string) (w : World) :
  search_pct s = None ->
  chain 0 (shown_pcts (terminal w)) 100 ->
  chain 0 (shown_pcts (terminal (snd (print s w)))) 100.
Proof.
  intros Hs Hc. destruct w as [so t se ws cs]. rewrite print_eq. simpl in *.
  destruct so as [|[name a b orig]]; simpl.
  - rewrite !shown_pcts_app. simpl. by rewrite !app_nil_r.
  - by rewrite Hs.
Qed.

(** C6 (as amended).  In a complete run on an audio file (no video
    conversion), when the local percentages reported during the inference
    and during the alignment never decrease and stay within 0 to 100, the
    global percentages rendered on the terminal never decrease, whichever
    way the run ends. *)
Theorem rendered_percentages_never_decrease (env : Env) :
  is_video (file_suffix env) = false ->
  steady_progress (ext_prints (transcribe env)) ->
  steady_progress (alignment_prints env) ->
  nondecreasing (shown_pcts (terminal (snd (main env initial_world)))).
Proof.
  intros Hv Htr Hal.
  apply (chain_nondecreasing 0 _ 100).
  assert (forall w, Shown 0 w ->
            chain 0 (shown_pcts (terminal (snd (main env w)))) 100) as Hmain.
  2:{ apply Hmain. split; [done|]. simpl. lra. }
  intros w Hw. unfold main.
  (* the part before the processing section *)
  assert (forall {A B} (m : M A) (k : A -> M B) w0,
            quiet 0 0 m -> Shown 0 w0 ->
            (forall x w1, Shown 0 w1 -> chain 0 (shown_pcts (terminal (snd (k x w1)))) 100) ->
            chain 0 (shown_pcts (terminal (snd (bind m k w0)))) 100) as Hstep.
  { intros A B m k w0 Hm Hw0 Hk. specialize (Hm w0 Hw0). unfold bind.
    destruct (m w0) as [[x|e] w1]; simpl in *; [by apply Hk|].
    destruct Hm as [_ Hc]. eapply chain_weaken; [exact Hc|lra]. }
  apply Hstep; [apply quiet_main_file_info|done|]. intros d w1 Hw1.
  apply Hstep; [apply quiet_print|done|]. intros _ w2 Hw2.
  apply Hstep; [apply quiet_print|done|]. intros _ w3 Hw3.
  apply Hstep; [apply quiet_print|done|]. intros _ w4 Hw4.
  (* the processing section *)
  destruct w4 as [so t se ws cs]. rewrite main_processing_snd, main_cleanup_terminal.
  set (w5 := mkWorld so t se (Some (temp_dir env)) cs).
  assert (Shown 0 w5) as Hw5 by exact Hw4.
  pose proof (advances_main_try_body env d (temp_dir env) Hv Htr Hal w5 Hw5) as Hbody.
  unfold try_except.
  destruct (main_try_body env d (temp_dir env) w5) as [[[]|e] w6]; simpl in *.
  - by destruct Hbody.
  - destruct Hbody as [Hc Hso].
    destruct e as [msg| |msg]; simpl.
    + destruct Hso as [Hso|?]; [|done].
      assert (Shown 100 w6) as Hw6 by done.
      assert (quiet 100 100 (print (LF +:+ LF +:+ "  FOUT: " +:+ msg) ;;
                             stderr_write "Traceback (most recent call last):")) as Hq.
      { apply (quiet_bind 100 100); [apply quiet_print|lra|intros _; apply quiet_stderr_write]. }
      by destruct (Hq w6 Hw6).
    + by apply print_without_percentage.
    + done.
Qed.

Lemma rendered_percentages_never_decrease_witness :
  nondecreasing (shown_pcts (terminal (snd (main audio_run initial_world)))).
Proof.
  apply (rendered_percentages_never_decrease audio_run); [reflexivity|..];
    vm_compute; repeat split; discriminate.
Defined.

(** C6 (counterexample).  With a video input the conversion bar ends at
    15% and the bar of the model load then starts again at 0%. *)
Lemma video_run_percentage_drops :
  ~ nondecreasing (shown_pcts (terminal (snd (main video_run initial_world)))).
Proof.
  intros H.
  specialize (H 2%nat 3%nat 15%Q 0%Q ltac:(lia)).
  assert (15 <= 0)%Q as Hle; [|revert Hle; apply Qlt_not_le; reflexivity].
  apply H; vm_compute; reflexivity.
Qed.

(** * More properties of the code *)

(** ** Stripping *)

Lemma lstrip_by_first (p : ascii -> bool) (s : string) (c : ascii) :
  first_char (lstrip_by p s) = Some c -> p c = false.
Proof.
  induction s as [|a s IH]; simpl; [done|].
  destruct (p a) eqn:Ha; [done|]. simpl. by intros [= <-].
Qed.

Lemma rstrip_by_last (p : ascii -> bool) (s : string) (c : ascii) :
  last_char (rstrip_by p s) = Some c -> p c = false.
Proof.
  induction s as [|a s IH]; simpl; [done|].
  destruct (rstrip_by p s) as [|d r] eqn:Hr.
  - destruct (p a) eqn:Ha; simpl; [done|]. by intros [= <-].
  - simpl in *. exact IH.
Qed.

Lemma rstrip_by_first (p : ascii -> bool) (s : string) (c : ascii) :
  first_char (rstrip_by p s) = Some c -> first_char s = Some c.
Proof.
  destruct s as [|a s]; simpl; [done|].
  destruct (rstrip_by p s) as [|d r]; [|done].
  by destruct (p a).
Qed.


Lemma lstrip_by_empty (p : ascii -> bool) (s : string) :
  lstrip_by p s = "" <-> all_chars p s = true.
Proof.
  induction s as [|a s IH]; simpl; [done|].
  destruct (p a); simpl; [done|]. split; done.
Qed.



Lemma strip_by_ends (p : ascii -> bool) (s : string) :
  (forall c, first_char (strip_by p s) = Some c -> p c = false) /\
  (forall c, last_char (strip_by p s) = Some c -> p c = false).
Proof.
  unfold strip_by. split; intros c H.
  - apply rstrip_by_first in H. by apply lstrip_by_first in H.
  - by apply rstrip_by_last in H.
Qed.

Lemma lstrip_by_fixed (p : ascii -> bool) (s : string) :
  (forall c, first_char s = Some c -> p c = false) -> lstrip_by p s = s.
Proof.
  destruct s as [|a s]; simpl; [done|]. intros H. by rewrite (H a eq_refl).
Qed.

Lemma rstrip_by_fixed (p : ascii -> bool) (s : string) :
  (forall c, last_char s = Some c -> p c = false) -> rstrip_by p s = s.
Proof.
  induction s as [|a s IH]; simpl; [done|]. intros H.
  destruct s as [|b s].
  - simpl. by rewrite (H a eq_refl).
  - rewrite IH; [done|]. intros c Hc. apply H. exact Hc.
Qed.

Lemma strip_by_idempotent (p : ascii -> bool) (s : string) :
  strip_by p (strip_by p s) = strip_by p s.
Proof.
  destruct (strip_by_ends p s) as [Hf Hl].
  unfold strip_by at 1. rewrite (lstrip_by_fixed p (strip_by p s)) by done.
  by apply rstrip_by_fixed.
Qed.

(** ** The two menus of [main] *)






(** ** File selection *)




(** ** The transcript body of the Word document *)





(** ** The bar, time stamps and estimates *)

Lemma py_int_floor (x : Q) : (0 <= x)%Q -> py_int x = Qfloor x.
Proof.
  destruct x as [n d]. unfold Qle, py_int. simpl. intros H.
  apply Z.quot_div_nonneg; lia.
Qed.

Lemma py_int_inject_Z (n : Z) : py_int (inject_Z n) = n.
Proof. unfold py_int. simpl. apply Z.quot_1_r. Qed.

Lemma Qfloor_unique (x : Q) (n : Z) :
  (inject_Z n <= x)%Q -> (x < inject_Z (n + 1))%Q -> Qfloor x = n.
Proof.
  intros Hlo Hhi.
  pose proof (Qfloor_le x) as H1. pose proof (Qlt_floor x) as H2.
  assert (n < Qfloor x + 1).
  { rewrite Zlt_Qlt. eapply Qle_lt_trans; eassumption. }
  assert (Qfloor x < n + 1).
  { rewrite Zlt_Qlt. eapply Qle_lt_trans; eassumption. }
  lia.
Qed.

Lemma Qfloor_range (x : Q) (lo hi : Z) :
  (inject_Z lo <= x)%Q -> (x < inject_Z hi)%Q -> lo ≤ Qfloor x < hi.
Proof.
  intros Hlo Hhi.
  pose proof (Qfloor_le x) as H1. pose proof (Qlt_floor x) as H2.
  split.
  - assert (lo < Qfloor x + 1); [|lia].
    rewrite Zlt_Qlt. eapply Qle_lt_trans; eassumption.
  - rewrite Zlt_Qlt. eapply Qle_lt_trans; eassumption.
Qed.

Lemma Qdiv_60 (a : Q) : (a / 60 == a * (1 # 60))%Q.
Proof. field. Qed.

Lemma Qdiv_3600 (a : Q) : (a / 3600 == a * (1 # 3600))%Q.
Proof. field. Qed.

Lemma length_repeat_char (c : ascii) (n : nat) :
  String.length (repeat_str (String c "") n) = n.
Proof.
  induction n as [|n IH]; [done|].
  change (repeat_str (String c "") (S n)) with (String c "" +:+ repeat_str (String c "") n).
  rewrite length_append, IH. reflexivity.
Qed.

Lemma length_str_mul_char (c : ascii) (n : Z) :
  String.length (str_mul (String c "") n) = Z.to_nat n.
Proof. apply length_repeat_char. Qed.

(** X7. For a percentage that is not negative the bar of [_render_bar] and
    [print_progress_bar] is always 40 characters wide.  Below 100 it is
    [f] equals signs, the cursor and [39 - f] spaces, where [f] is 40% of
    the percentage rounded down; from 100 on it is 40 equals signs, without
    a cursor. *)
Theorem bar_of_width (pct : Q) :
  (0 <= pct)%Q ->
  String.length (bar_of pct) = 40%nat /\
  ((pct < 100)%Q ->
   exists f, 0 ≤ f < 40 /\
     (inject_Z f <= pct * (2 # 5))%Q /\ (pct * (2 # 5) < inject_Z (f + 1))%Q /\
     bar_of pct = str_mul "=" f +:+ ">" +:+ str_mul " " (39 - f)) /\
  ((100 <= pct)%Q -> bar_of pct = str_mul "=" 40).
Proof.
  intros Hpct. unfold bar_of, bar_width.
  set (x := (inject_Z 40 * pct / 100)%Q).
  assert (Hx : (x == pct * (2 # 5))%Q) by (unfold x; field).
  assert (Hx0 : (0 <= x)%Q) by (rewrite Hx; lra).
  rewrite (py_int_floor x Hx0).
  pose proof (Qfloor_le x) as H1. pose proof (Qlt_floor x) as H2.
  assert (H0 : 0 ≤ Qfloor x).
  { apply (Qfloor_range x 0 (Qfloor x + 1)); [exact Hx0|exact H2]. }
  split; [|split].
  - destruct (Qfloor x <? 40) eqn:Hf.
    + apply Z.ltb_lt in Hf.
      rewrite !length_append, !length_str_mul_char.
      change (String.length ">") with 1%nat. lia.
    + apply length_str_mul_char.
  - intros Hlt.
    assert (Hf : Qfloor x < 40).
    { apply (Qfloor_range x 0 40); [exact Hx0|]. rewrite Hx. change (inject_Z 40) with 40%Q. lra. }
    exists (Qfloor x). split; [lia|]. split; [by rewrite <-Hx|]. split; [by rewrite <-Hx|].
    apply Z.ltb_lt in Hf. rewrite Hf.
    by replace (40 - Qfloor x - 1) with (39 - Qfloor x) by lia.
  - intros Hge.
    assert (Hf : 40 ≤ Qfloor x).
    { assert (40 < Qfloor x + 1); [|lia]. rewrite Zlt_Qlt.
      eapply Qle_lt_trans; [|exact H2]. rewrite Hx. change (inject_Z 40) with 40%Q. lra. }
    apply Z.ltb_ge in Hf. by rewrite Hf.
Qed.

Lemma bar_of_width_witness :
  String.length (bar_of 50) = 40%nat /\
  ((50 < 100)%Q ->
   exists f, 0 ≤ f < 40 /\
     (inject_Z f <= 50 * (2 # 5))%Q /\ (50 * (2 # 5) < inject_Z (f + 1))%Q /\
     bar_of 50 = str_mul "=" f +:+ ">" +:+ str_mul " " (39 - f)) /\
  ((100 <= 50)%Q -> bar_of 50 = str_mul "=" 40).
Proof. apply (bar_of_width 50). vm_compute. discriminate. Defined.

Lemma length_fmt_02d (n : Z) : 0 ≤ n < 100 -> String.length (fmt_02d n) = 2%nat.
Proof.
  intros Hn.
  assert (H : Forall (fun k => String.length (fmt_02d k) = 2%nat) (seqZ 0 100)).
  { apply (bool_decide_unpack _). by vm_compute. }
  rewrite Forall_forall in H. apply H. apply elem_of_seqZ. lia.
Qed.

(** X8. [format_timestamp] on [h] hours, [m] minutes, [s] seconds and a
    fraction of a second shows the two-digit minutes and seconds, with the
    fraction dropped, and puts the hours in front only when there is at
    least one; under an hour the stamp is five characters, [mm:ss]. *)
Theorem format_timestamp_fields (h m s : Z) (frac : Q) :
  0 ≤ h -> 0 ≤ m < 60 -> 0 ≤ s < 60 -> (0 <= frac)%Q -> (frac < 1)%Q ->
  format_timestamp (inject_Z (h * 3600 + m * 60 + s) + frac)
    = (if 0 <? h then fmt_02d h +:+ ":" +:+ fmt_02d m +:+ ":" +:+ fmt_02d s
       else fmt_02d m +:+ ":" +:+ fmt_02d s) /\
  (h = 0 -> String.length (format_timestamp (inject_Z (h * 3600 + m * 60 + s) + frac)) = 5%nat).
Proof.
  intros Hh Hm Hs Hf0 Hf1.
  set (x := (inject_Z (h * 3600 + m * 60 + s) + frac)%Q).
  assert (Hx : (x == inject_Z h * 3600 + inject_Z m * 60 + inject_Z s + frac)%Q).
  { unfold x. rewrite !inject_Z_plus, !inject_Z_mult. reflexivity. }
  assert (Hh0 : (0 <= inject_Z h)%Q) by (change (inject_Z 0 <= inject_Z h)%Q; rewrite <-Zle_Qle; lia).
  assert (Hm0 : (0 <= inject_Z m)%Q) by (change (inject_Z 0 <= inject_Z m)%Q; rewrite <-Zle_Qle; lia).
  assert (Hm1 : (inject_Z m <= 59)%Q) by (change (inject_Z m <= inject_Z 59)%Q; rewrite <-Zle_Qle; lia).
  assert (Hs0 : (0 <= inject_Z s)%Q) by (change (inject_Z 0 <= inject_Z s)%Q; rewrite <-Zle_Qle; lia).
  assert (Hs1 : (inject_Z s <= 59)%Q) by (change (inject_Z s <= inject_Z 59)%Q; rewrite <-Zle_Qle; lia).
  assert (E1 : Qfloor (x / 3600) = h).
  { apply Qfloor_unique; rewrite ?inject_Z_plus, Qdiv_3600, Hx;
      change (inject_Z 1) with 1%Q; lra. }
  assert (E2 : Qfloor (x / 60) = h * 60 + m).
  { apply Qfloor_unique; rewrite ?inject_Z_plus, ?inject_Z_mult, Qdiv_60, Hx;
      change (inject_Z 1) with 1%Q; change (inject_Z 60) with 60%Q; lra. }
  assert (E3 : Qfloor (pymod x 3600 / 60) = m).
  { unfold pymod, floordiv. rewrite E1.
    apply Qfloor_unique; rewrite ?inject_Z_plus, Qdiv_60, Hx;
      change (inject_Z 1) with 1%Q; lra. }
  assert (E4 : py_int (pymod x 60) = s).
  { assert (H0 : (0 <= pymod x 60)%Q).
    { unfold pymod, floordiv. rewrite E2, inject_Z_plus, inject_Z_mult, Hx.
      change (inject_Z 60) with 60%Q. lra. }
    rewrite (py_int_floor _ H0). unfold pymod, floordiv. rewrite E2.
    apply Qfloor_unique; rewrite ?inject_Z_plus, ?inject_Z_mult, Hx;
      change (inject_Z 1) with 1%Q; change (inject_Z 60) with 60%Q; lra. }
  assert (E : format_timestamp x
    = (if 0 <? h then fmt_02d h +:+ ":" +:+ fmt_02d m +:+ ":" +:+ fmt_02d s
       else fmt_02d m +:+ ":" +:+ fmt_02d s)).
  { assert (F1 : py_int (floordiv x 3600) = h)
      by (unfold floordiv at 1; rewrite py_int_inject_Z; exact E1).
    assert (F3 : py_int (floordiv (pymod x 3600) 60) = m)
      by (unfold floordiv at 1; rewrite py_int_inject_Z; exact E3).
    unfold format_timestamp. rewrite E4, F1, F3. reflexivity. }
  split; [exact E|].
  intros ->. rewrite E. change (0 <? 0) with false. cbv iota.
  rewrite !length_append, !length_fmt_02d by lia. reflexivity.
Qed.

Lemma format_timestamp_fields_witness :
  format_timestamp (inject_Z (1 * 3600 + 2 * 60 + 3) + (1 # 2))
    = (if 0 <? 1 then fmt_02d 1 +:+ ":" +:+ fmt_02d 2 +:+ ":" +:+ fmt_02d 3
       else fmt_02d 2 +:+ ":" +:+ fmt_02d 3) /\
  (1 = 0 -> String.length (format_timestamp (inject_Z (1 * 3600 + 2 * 60 + 3) + (1 # 2))) = 5%nat).
Proof.
  apply (format_timestamp_fields 1 2 3 (1 # 2)); [lia|lia|lia|by vm_compute|by vm_compute].
Defined.




(** ** Video conversion *)

Lemma match_time_at_digits (line h m s : string) :
  match_time_at line = Some (h, m, s) ->
  all_digits h = true /\ all_digits m = true /\
  exists s1 s2, s = s1 +:+ "." +:+ s2 /\ all_digits s1 = true /\ all_digits s2 = true.
Proof.
  unfold match_time_at. destruct (strip_prefix "time=" line) as [r0|]; [|done].
  destruct (span_digits r0) as [h' r1] eqn:H1.
  apply span_digits_spec in H1 as (_ & Hh & _).
  destruct h' as [|ch h']; [done|].
  destruct (expect ":" r1) as [r1'|]; [|done].
  destruct (span_digits r1') as [m' r2] eqn:H2.
  apply span_digits_spec in H2 as (_ & Hm & _).
  destruct m' as [|cm m']; [done|].
  destruct (expect ":" r2) as [r2'|]; [|done].
  destruct (span_digits r2') as [s1 r3] eqn:H3.
  apply span_digits_spec in H3 as (_ & Hs1 & _).
  destruct s1 as [|c1 s1]; [done|].
  destruct (expect "." r3) as [r3'|]; [|done].
  destruct (span_digits r3') as [s2 r4] eqn:H4.
  apply span_digits_spec in H4 as (_ & Hs2 & _).
  destruct s2 as [|c2 s2]; [done|].
  intros [= <- <- <-]. split; [done|]. split; [done|].
  by exists (String c1 s1), (String c2 s2).
Qed.

Lemma search_time_digits (line h m s : string) :
  search_time line = Some (h, m, s) ->
  all_digits h = true /\ all_digits m = true /\
  exists s1 s2, s = s1 +:+ "." +:+ s2 /\ all_digits s1 = true /\ all_digits s2 = true.
Proof.
  induction line as [|c line IH]; simpl.
  - done.
  - destruct (match_time_at (String c line)) as [g|] eqn:H; [|exact IH].
    intros [= ->]. by apply match_time_at_digits in H.
Qed.

Lemma py_min_100_range (x : Q) : (0 <= x)%Q -> (0 <= py_min x 100 <= 100)%Q.
Proof. intros H. unfold py_min. destruct (Qlt_le_dec 100 x); lra. Qed.

Lemma conversion_pct_range (pct : Q) :
  (0 <= pct <= 100)%Q -> (5 <= 5 + pct / 100 * 10 <= 15)%Q.
Proof.
  intros H. assert (E : (5 + pct / 100 * 10 == 5 + pct * (1 # 10))%Q) by field.
  rewrite E. lra.
Qed.

Lemma convert_progress_line_bars (d : option Q) (line : string) t se ws cs :
  exists added,
    convert_progress_line d line (mkWorld Terminal t se ws cs)
      = (Ret tt, mkWorld Terminal (t ++ added) se ws cs) /\
    Forall (fun o => exists p, o = Bar "Video conversie" p /\ (5 <= p <= 15)%Q) added /\
    (known_positive d = false -> added = []).
Proof.
  unfold convert_progress_line.
  destruct (search_time line) as [[[h m] s]|] eqn:Hline;
    [|exists []; by rewrite app_nil_r].
  destruct (known_positive d) eqn:Hd; [|exists []; by rewrite app_nil_r].
  apply known_positive_iff in Hd as (x & -> & Hx).
  apply search_time_digits in Hline as (Hh & Hm & s1 & s2 & -> & Hs1 & Hs2).
  eexists [_]. split; [reflexivity|]. split; [|done].
  apply Forall_singleton. eexists. split; [reflexivity|].
  apply conversion_pct_range, py_min_100_range.
  pose proof (int_of_digits_nonneg h Hh) as H1.
  pose proof (int_of_digits_nonneg m Hm) as H2.
  assert (H3 : (0 <= float_of_decimal (s1 +:+ "." +:+ s2))%Q)
    by (apply float_of_decimal_nonneg; auto).
  assert (H4 : (0 <= inject_Z (int_of_digits h * 3600 + int_of_digits m * 60))%Q)
    by (apply inject_Z_nonneg; lia).
  apply Qmult_le_0_compat; [|done].
  apply Qle_shift_div_l; [exact Hx|]. lra.
Qed.

Lemma convert_lines_bars (d : option Q) (lines : list string) t se ws cs :
  exists added,
    for_each lines (convert_progress_line d) (mkWorld Terminal t se ws cs)
      = (Ret tt, mkWorld Terminal (t ++ added) se ws cs) /\
    Forall (fun o => exists p, o = Bar "Video conversie" p /\ (5 <= p <= 15)%Q) added /\
    (known_positive d = false -> added = []).
Proof.
  revert t. induction lines as [|line lines IH]; intros t.
  - exists []. by rewrite app_nil_r.
  - change (for_each (line :: lines) (convert_progress_line d))
      with (bind (convert_progress_line d line)
              (fun _ => for_each lines (convert_progress_line d))).
    destruct (convert_progress_line_bars d line t se ws cs) as (a1 & E1 & F1 & N1).
    destruct (IH (t ++ a1)) as (a2 & E2 & F2 & N2).
    exists (a1 ++ a2). erewrite bind_ret_eq by exact E1. rewrite E2, app_assoc.
    split; [done|]. split; [by apply Forall_app|].
    intros H. by rewrite N1, N2.
Qed.

(** X10. Whatever ffmpeg writes to its error stream, and whatever the
    duration is, [convert_video_to_audio] writes to the terminal only bars
    labelled [Video conversie] with a percentage from 5 to 15, and one line
    end after the last one. *)
Theorem conversion_bars_within_phase (env : Env) (video_path temp : string) t se ws cs :
  exists added,
    terminal (snd (convert_video_to_audio env video_path temp (mkWorld Terminal t se ws cs)))
      = t ++ added /\
    Forall (fun o => (exists p, o = Bar "Video conversie" p /\ (5 <= p <= 15)%Q) \/
                     o = Text LF) added.
Proof.
  unfold convert_video_to_audio.
  set (output_path := path_join temp (file_stem env +:+ ".wav")).
  assert (Hd : (exists e, get_duration_ffprobe env video_path (mkWorld Terminal t se ws cs)
                  = (Raise e, mkWorld Terminal t se ws (cs ++ [CallFfprobe video_path]))) \/
               (exists d, get_duration_ffprobe env video_path (mkWorld Terminal t se ws cs)
                  = (Ret d, mkWorld Terminal t se ws (cs ++ [CallFfprobe video_path])))).
  { rewrite get_duration_ffprobe_eq.
    destruct (ffprobe env video_path) as [d|e]; [right; by exists d|].
    destruct (is_Exception e); [right; by exists None|left; by exists e]. }
  destruct Hd as [[e E0]|[d E0]].
  { erewrite bind_raise_eq by exact E0. exists []. by rewrite app_nil_r. }
  erewrite bind_ret_eq by exact E0. cbv beta. rewrite step_log_call.
  destruct (convert_lines_bars d (ffmpeg_stderr env) t se ws
              ((cs ++ [CallFfprobe video_path])
                 ++ [CallFfmpegConvert video_path output_path])) as (bars & E & F & _).
  erewrite bind_ret_eq by exact E. cbv beta.
  assert (F' : Forall (fun o => (exists p, o = Bar "Video conversie" p /\ (5 <= p <= 15)%Q) \/
                                o = Text LF) bars).
  { eapply Forall_impl; [exact F|]. intros o Ho. by left. }
  destruct (negb (ffmpeg_returncode env =? 0)).
  - erewrite bind_raise_eq by reflexivity. by exists bars.
  - erewrite bind_ret_eq by reflexivity. cbv beta.
    rewrite step_bar, step_finish_bar.
    exists (bars ++ [Bar "Video conversie" 15; Text LF]).
    split; [simpl; by rewrite <-!app_assoc|].
    apply Forall_app. split; [exact F'|].
    apply Forall_cons. split; [left; eexists; split; [reflexivity|lra]|].
    apply Forall_singleton. by right.
Qed.



(** ** Output intercepted during the whisperx calls *)

Lemma contains_char_app (c : ascii) (s t : string) :
  contains_char c (s +:+ t) = contains_char c s || contains_char c t.
Proof.
  induction s as [|a s IH]; [reflexivity|].
  rewrite append_cons. simpl. by rewrite IH, orb_assoc.
Qed.

Lemma expect_Some (c : ascii) (s r : string) : expect c s = Some r -> s = String c r.
Proof.
  destruct s as [|a s]; simpl; [done|].
  destruct (Ascii.eqb_spec a c) as [->|]; [|done]. by intros [= ->].
Qed.

Lemma match_pct_at_percent (s g : string) :
  match_pct_at s = Some g -> contains_char "%" s = true.
Proof.
  unfold match_pct_at. destruct (span_digits s) as [d1 r1] eqn:H1.
  apply span_digits_spec in H1 as (-> & _ & _).
  destruct d1 as [|c d1]; [done|].
  rewrite contains_char_app.
  destruct (expect "." r1) as [r|] eqn:Hdot.
  - apply expect_Some in Hdot as ->.
    destruct (span_digits r) as [d2 r3] eqn:H2.
    apply span_digits_spec in H2 as (-> & _ & _).
    destruct (expect "%" r3) as [r4|] eqn:Hp; [|done].
    apply expect_Some in Hp as ->. intros _.
    cbn [contains_char]. rewrite contains_char_app. cbn [contains_char].
    change (Ascii.eqb "%" "%") with true.
    by rewrite !orb_true_r.
  - destruct (span_digits r1) as [d2 r3] eqn:H2.
    apply span_digits_spec in H2 as (-> & _ & _).
    destruct (expect "%" r3) as [r4|] eqn:Hp; [|done].
    apply expect_Some in Hp as ->. intros _.
    rewrite contains_char_app. cbn [contains_char].
    change (Ascii.eqb "%" "%") with true.
    by rewrite !orb_true_r.
Qed.

Lemma search_pct_percent (s : string) :
  contains_char "%" s = false -> search_pct s = None.
Proof.
  induction s as [|c s IH]; intros H.
  - reflexivity.
  - simpl. destruct (match_pct_at (String c s)) as [g|] eqn:Hm.
    + apply match_pct_at_percent in Hm. congruence.
    + apply IH. simpl in H. by apply orb_false_iff in H as [_ H].
Qed.

(** X12. [ProgressCapture.write] does nothing with a text that has no
    percent sign in it; so while [sys.stdout] is redirected to a
    [ProgressCapture], a call that prints only such lines leaves the
    terminal as it was: nothing of what it prints is shown. *)
Theorem output_without_percent_is_dropped {A} (c : call) (r : ExtRun A)
    (name : string) (s e : Q) t se ws cs :
  Forall (fun line => contains_char "%" line = false) (ext_prints r) ->
  (forall line pc w, line ∈ ext_prints r -> write pc line w = (Ret tt, w)) /\
  let st := Redirected (mkProgressCapture name s e Terminal) in
  run_ext c r (mkWorld st t se ws cs)
    = (ext_result r, mkWorld st t se ws (cs ++ [c])).
Proof.
  intros H. split.
  { intros line pc w Hin. rewrite Forall_forall in H.
    unfold write. by rewrite (search_pct_percent line (H line Hin)). }
  intros st. subst st. rewrite run_ext_capture.
  assert (E : bars_of name s e (ext_prints r) = []).
  { induction H as [|line l Hline _ IH]; [reflexivity|].
    rewrite bars_of_cons, IH, app_nil_r.
    unfold bars_of, local_pcts. simpl. by rewrite (search_pct_percent line Hline). }
  by rewrite E, app_nil_r.
Qed.

Lemma output_without_percent_is_dropped_witness :
  (forall line pc w, line ∈ ["Detected language: nl"] -> write pc line w = (Ret tt, w)) /\
  let st := Redirected (mkProgressCapture "Transcriptie" 15 70 Terminal) in
  run_ext CallTranscribe (mkExtRun ["Detected language: nl"] (Ret tt))
    (mkWorld st [] [] None [])
    = (Ret tt, mkWorld st [] [] None ([] ++ [CallTranscribe])).
Proof.
  apply (output_without_percent_is_dropped CallTranscribe
           (mkExtRun ["Detected language: nl"] (Ret tt)) "Transcriptie" 15 70 [] [] None []).
  apply Forall_cons. split; [reflexivity|apply Forall_nil; exact I].
Defined.

(** ** Failures of the transcription pipeline *)

Lemma run_transcription_load_model_fails (env : Env) (audio model language : string)
    t se ws cs (e : exn) :
  load_model env = Raise e ->
  run_transcription env audio model language (mkWorld Terminal t se ws cs)
    = (Raise e, mkWorld Terminal (t ++ [Bar "Model laden" 0]) se ws
                  (cs ++ [CallLoadModel model language])).
Proof.
  intros Hm. unfold run_transcription. run_step.
  erewrite bind_raise_eq; [|rewrite call_ext_eq, Hm; reflexivity]. reflexivity.
Qed.

Lemma run_transcription_load_audio_fails (env : Env) (audio model language : string)
    t se ws cs (e : exn) :
  load_model env = Ret tt -> load_audio env = Raise e ->
  run_transcription env audio model language (mkWorld Terminal t se ws cs)
    = (Raise e,
       mkWorld Terminal
         (t ++ [Bar "Model laden" 0; Bar "Model laden" 10; Text LF; Bar "Audio laden" 10])
         se ws (cs ++ [CallLoadModel model language; CallLoadAudio audio])).
Proof.
  intros Hm Ha. unfold run_transcription. run_step.
  erewrite bind_ret_eq; [|rewrite call_ext_eq, Hm; reflexivity]. cbv beta.
  do 3 run_step.
  erewrite bind_raise_eq; [|rewrite call_ext_eq, Ha; reflexivity].
  by rewrite <-!app_assoc.
Qed.

Lemma run_transcription_inference_fails (env : Env) (audio model language : string)
    t se ws cs (e : exn) :
  load_model env = Ret tt -> load_audio env = Ret tt ->
  ext_result (transcribe env) = Raise e ->
  run_transcription env audio model language (mkWorld Terminal t se ws cs)
    = (Raise e,
       mkWorld Terminal
         (t ++ [Bar "Model laden" 0; Bar "Model laden" 10; Text LF;
                Bar "Audio laden" 10; Bar "Audio laden" 15; Text LF]
            ++ bars_of "Transcriptie" 15 70 (ext_prints (transcribe env)))
         se ws (cs ++ [CallLoadModel model language; CallLoadAudio audio; CallTranscribe])).
Proof.
  intros Hm Ha Ht. unfold run_transcription. run_step.
  erewrite bind_ret_eq; [|rewrite call_ext_eq, Hm; reflexivity]. cbv beta.
  do 3 run_step.
  erewrite bind_ret_eq; [|rewrite call_ext_eq, Ha; reflexivity]. cbv beta.
  do 5 run_step.
  erewrite bind_raise_eq;
    [|eapply try_finally_restore; rewrite run_ext_capture, Ht; reflexivity].
  by rewrite <-!app_assoc.
Qed.

(** X13. Unlike a failing alignment, a failure of the model load, the audio
    load or the inference is not recovered from: [run_transcription] raises
    the same exception, with [sys.stdout] bound to the terminal again, and
    no alignment call is made. *)
Theorem inference_failures_are_fatal (env : Env) (audio model language : string)
    t se ws cs (e : exn) :
  load_model env = Raise e \/
  (load_model env = Ret tt /\ load_audio env = Raise e) \/
  (load_model env = Ret tt /\ load_audio env = Ret tt /\
   ext_result (transcribe env) = Raise e) ->
  let r := run_transcription env audio model language (mkWorld Terminal t se ws cs) in
  fst r = Raise e /\
  sys_stdout (snd r) = Terminal /\
  exists made, calls (snd r) = cs ++ made /\
               Forall (fun c => is_inference_call c = true) made.
Proof.
  intros [Hm|[[Hm Ha]|(Hm & Ha & Ht)]] r; subst r.
  - rewrite (run_transcription_load_model_fails env audio model language t se ws cs e Hm).
    split; [done|]. split; [done|]. eexists. split; [reflexivity|]. by repeat constructor.
  - rewrite (run_transcription_load_audio_fails env audio model language t se ws cs e Hm Ha).
    split; [done|]. split; [done|]. eexists. split; [reflexivity|]. by repeat constructor.
  - rewrite (run_transcription_inference_fails env audio model language t se ws cs e Hm Ha Ht).
    split; [done|]. split; [done|]. eexists. split; [reflexivity|]. by repeat constructor.
Qed.

Lemma inference_failures_are_fatal_witness :
  let r := run_transcription inference_fails_run "/in/talk.mp3" "medium" "nl"
             (mkWorld Terminal [] [] None []) in
  fst r = Raise (PyException "out of memory") /\
  sys_stdout (snd r) = Terminal /\
  exists made, calls (snd r) = [] ++ made /\
               Forall (fun c => is_inference_call c = true) made.
Proof.
  apply (inference_failures_are_fatal inference_fails_run "/in/talk.mp3" "medium" "nl"
           [] [] None [] (PyException "out of memory")).
  right. right. by vm_compute.
Defined.

(** X14. When [run_transcription] returns, the model load, the audio load
    and the inference have all succeeded; the language it returns is the
    one whisperx detected, or the requested one when whisperx reported
    none; the segments are the aligned ones, or the raw ones if the
    alignment raised an [Exception]; and [sys.stdout] is the terminal
    again. *)
Theorem run_transcription_returns (env : Env) (audio model language : string)
    t se ws cs (segments : list Segment) (lang : string) :
  let r := run_transcription env audio model language (mkWorld Terminal t se ws cs) in
  fst r = Ret (segments, lang) ->
  load_model env = Ret tt /\ load_audio env = Ret tt /\
  (exists raw lo,
     ext_result (transcribe env) = Ret (raw, lo) /\
     lang = default language lo /\
     (alignment_outcome env = Ret segments \/
      (segments = raw /\
       exists e, alignment_outcome env = Raise e /\ is_Exception e = true))) /\
  sys_stdout (snd r) = Terminal.
Proof.
  intros r. subst r.
  destruct (load_model env) as [[]|e] eqn:Hm;
    [|rewrite (run_transcription_load_model_fails env audio model language t se ws cs e Hm);
      done].
  destruct (load_audio env) as [[]|e] eqn:Ha;
    [|rewrite (run_transcription_load_audio_fails env audio model language t se ws cs e Hm Ha);
      done].
  destruct (ext_result (transcribe env)) as [[raw lo]|e] eqn:Ht;
    [|rewrite (run_transcription_inference_fails env audio model language t se ws cs e Hm Ha Ht);
      done].
  rewrite (run_transcription_after_inference env audio model language t se ws cs raw lo Hm Ha Ht).
  destruct (alignment_outcome env) as [a|e] eqn:Hal.
  - intros [= <- <-]. split; [done|]. split; [done|]. split; [|done].
    exists raw, lo. split; [done|]. split; [done|]. by left.
  - destruct (is_Exception e) eqn:He; [|done].
    intros [= <- <-]. split; [done|]. split; [done|]. split; [|done].
    exists raw, lo. split; [done|]. split; [done|]. right. split; [done|]. by exists e.
Qed.

Lemma run_transcription_returns_witness :
  let r := run_transcription audio_run "/in/talk.mp3" "medium" "nl"
             (mkWorld Terminal [] [] None []) in
  load_model audio_run = Ret tt /\ load_audio audio_run = Ret tt /\
  (exists raw lo,
     ext_result (transcribe audio_run) = Ret (raw, lo) /\
     "nl" = default "nl" lo /\
     (alignment_outcome audio_run = Ret sample_segments \/
      (sample_segments = raw /\
       exists e, alignment_outcome audio_run = Raise e /\ is_Exception e = true))) /\
  sys_stdout (snd r) = Terminal.
Proof.
  apply (run_transcription_returns audio_run "/in/talk.mp3" "medium" "nl" [] [] None []
           sample_segments "nl").
  by vm_compute.
Defined.

(** ** The exporter is called after the pipeline, once *)

Lemma exports_write l st o : inv (exports_are l) (write_to st o).
Proof. by intros w Hw. Qed.

Lemma exports_set_stdout l st : inv (exports_are l) (set_stdout st).
Proof. by intros w Hw. Qed.

Lemma exports_stderr l s : inv (exports_are l) (stderr_write s).
Proof. by intros w Hw. Qed.

Lemma exports_log_call l c : is_export c = false -> inv (exports_are l) (log_call c).
Proof.
  intros Hc w Hw. unfold exports_are in *. by rewrite calls_where_app, Hc, app_nil_r.
Qed.

Lemma exports_print l s : inv (exports_are l) (print s).
Proof. apply frame_print. apply exports_write. Qed.

Lemma exports_print_progress_bar l label p : inv (exports_are l) (print_progress_bar label p).
Proof. apply frame_print_progress_bar. apply exports_write. Qed.

Lemma exports_finish_progress_bar l : inv (exports_are l) finish_progress_bar.
Proof. apply frame_finish_progress_bar. apply exports_write. Qed.

Lemma exports_finish l pc : inv (exports_are l) (finish pc).
Proof. apply frame_finish. apply exports_write. Qed.

Lemma exports_run_ext {A} l c (r : ExtRun A) :
  is_export c = false -> inv (exports_are l) (run_ext c r).
Proof.
  intros Hc. unfold run_ext.
  apply inv_bind; [by apply exports_log_call|intros ?].
  apply inv_bind; [|intros ?; apply inv_lift_outcome].
  apply inv_for_each. intros x. apply exports_print.
Qed.

Lemma exports_call_ext {A} l c (r : outcome A) :
  is_export c = false -> inv (exports_are l) (call_ext c r).
Proof.
  intros Hc. unfold call_ext.
  apply inv_bind; [by apply exports_log_call|intros ?; apply inv_lift_outcome].
Qed.

Lemma exports_get_duration_ffprobe l env path :
  inv (exports_are l) (get_duration_ffprobe env path).
Proof.
  unfold get_duration_ffprobe. apply inv_try_except; [by apply exports_call_ext|].
  intros e h Hh. eapply inv_on_Exception; [|exact Hh]. intros ?. apply inv_ret.
Qed.

Lemma exports_convert_progress_line l d line :
  inv (exports_are l) (convert_progress_line d line).
Proof. apply frame_convert_progress_line. apply exports_write. Qed.

Ltac exports_step :=
  cbv beta;
  lazymatch goal with
  | |- inv _ (bind _ _) => apply inv_bind; [|intros ?]
  | |- inv _ (ret _) => apply inv_ret
  | |- inv _ (raise _) => apply inv_raise
  | |- inv _ (lift_outcome _) => apply inv_lift_outcome
  | |- inv _ (print _) => apply exports_print
  | |- inv _ (print_progress_bar _ _) => apply exports_print_progress_bar
  | |- inv _ finish_progress_bar => apply exports_finish_progress_bar
  | |- inv _ (finish _) => apply exports_finish
  | |- inv _ (ProgressCapture_init _ _ _) =>
      apply frame_ProgressCapture_init
  | |- inv _ get_stdout => apply frame_get_stdout
  | |- inv _ (set_stdout _) => apply exports_set_stdout
  | |- inv _ (stderr_write _) => apply exports_stderr
  | |- inv _ (log_call _) => apply exports_log_call; reflexivity
  | |- inv _ (run_ext _ _) => apply exports_run_ext; reflexivity
  | |- inv _ (call_ext _ _) => apply exports_call_ext; reflexivity
  | |- inv _ (get_duration_ffprobe _ _) => apply exports_get_duration_ffprobe
  | |- inv _ (try_finally _ _) => apply inv_try_finally
  | |- inv _ (try_except_else _ (on_Exception _) _) =>
      apply inv_try_except_else;
      [|let Hh := fresh in intros ? ? Hh; eapply inv_on_Exception; [intros ?|exact Hh]
       |intros ?]
  | |- inv _ (convert_progress_line _ _) => apply exports_convert_progress_line
  | |- inv _ (for_each _ _) => apply inv_for_each; intros ?
  | |- inv _ (if ?b then _ else _) => destruct b
  end.

Lemma exports_convert_video_to_audio l env path temp :
  inv (exports_are l) (convert_video_to_audio env path temp).
Proof. unfold convert_video_to_audio. repeat exports_step. Qed.

Lemma exports_compress_audio_if_needed l env path temp :
  inv (exports_are l) (compress_audio_if_needed env path temp).
Proof. unfold compress_audio_if_needed. repeat exports_step. Qed.


Lemma exports_main_prepare_audio l env temp :
  inv (exports_are l) (main_prepare_audio env temp).
Proof.
  unfold main_prepare_audio.
  apply inv_bind; [|intros ?; apply exports_compress_audio_if_needed].
  destruct (is_video (file_suffix env)); [|apply inv_ret].
  apply inv_bind; [apply exports_print|intros ?; apply exports_convert_video_to_audio].
Qed.








(** ** What the handlers of [main] let through *)

Lemma print_returns (s : string) (w : World) : fst (print s w) = Ret tt.
Proof. by destruct w. Qed.

Lemma guarded_body_outcome (env : Env) (d temp : string) (w : World) :
  let r := try_except (main_try_body env d temp) main_handler w in
  match fst r with
  | Ret _ => True
  | Raise e => fst (main_try_body env d temp w) = Raise e /\
               exists msg, e = PyBaseException msg
  end.
Proof.
  cbv zeta. unfold try_except.
  destruct (main_try_body env d temp w) as [[a|e] w'] eqn:E; [done|].
  destruct e as [msg| |msg]; cbn [main_handler].
  - unfold bind. pose proof (print_returns (LF +:+ LF +:+ "  FOUT: " +:+ msg) w') as Hp.
    destruct (print _ w') as [[[]|e] w'']; simpl in Hp; [done|discriminate].
  - by rewrite print_returns.
  - split; [done|by exists msg].
Qed.

(** X16. The processing section of [main] never lets an [Exception] or a
    [KeyboardInterrupt] of its steps escape: it ends normally, or with an
    exception of the [try] block that is neither of the two, or with what
    [shutil.rmtree] raised in the [finally] clause when that is not an
    [Exception]. *)
Theorem main_processing_outcome (env : Env) (duration_str : string) (w : World) :
  let r := fst (main_processing env duration_str w) in
  r = Ret tt \/
  (exists msg, r = Raise (PyBaseException msg)) \/
  (exists e, rmtree_result env = Raise e /\ is_Exception e = false /\ r = Raise e).
Proof.
  cbv zeta. destruct w as [so t se ws cs].
  unfold main_processing. rewrite step_set_workspace. unfold try_finally.
  set (w5 := mkWorld so t se (Some (temp_dir env)) cs).
  pose proof (guarded_body_outcome env duration_str (temp_dir env) w5) as Hg.
  cbv zeta in Hg.
  destruct (try_except (main_try_body env duration_str (temp_dir env)) main_handler w5)
    as [r6 w6].
  destruct (main_cleanup_effect env (temp_dir env) w6) as (_ & _ & Hc).
  cbv zeta in Hc.
  destruct (main_cleanup env (temp_dir env) w6) as [[[]|e] w7]; simpl in Hc.
  - simpl. destruct r6 as [[]|e6]; [by left|].
    simpl in Hg. destruct Hg as [_ [msg ->]]. right. left. by exists msg.
  - simpl. right. right. exists e.
    destruct (rmtree_result env) as [[]|e'] eqn:Hr; [done|].
    destruct (is_Exception e') eqn:He; [done|]. injection Hc as ->. done.
Qed.

(** ** Errors are reported on the terminal *)

Lemma on_terminal_write_to st o : inv on_terminal (write_to st o).
Proof. by intros w Hw. Qed.

Lemma on_terminal_log_call c : is_rmtree c = false -> inv on_terminal (log_call c).
Proof. by intros _ w Hw. Qed.

Lemma inv_unwinds {A} (m : M A) : inv on_terminal m -> unwinds m.
Proof. intros H w Hw. specialize (H w Hw). by destruct (fst (m w)). Qed.

Lemma unwinds_bind {A B} (m : M A) (k : A -> M B) :
  unwinds m -> (forall a, unwinds (k a)) -> unwinds (bind m k).
Proof.
  intros Hm Hk w Hw. specialize (Hm w Hw). unfold bind.
  destruct (m w) as [[a|e] w']; simpl in *; [by apply Hk|done].
Qed.

Lemma unwinds_run_transcription (env : Env) (audio model language : string) :
  unwinds (run_transcription env audio model language).
Proof.
  intros [so t se ws cs] Hw. unfold on_terminal in Hw. simpl in Hw. subst so.
  destruct (load_model env) as [[]|e] eqn:Hm;
    [|by rewrite (run_transcription_load_model_fails env audio model language t se ws cs e Hm)].
  destruct (load_audio env) as [[]|e] eqn:Ha;
    [|by rewrite (run_transcription_load_audio_fails env audio model language t se ws cs e Hm Ha)].
  destruct (ext_result (transcribe env)) as [[raw lo]|e] eqn:Ht;
    [|by rewrite (run_transcription_inference_fails env audio model language t se ws cs e
                    Hm Ha Ht)].
  rewrite (run_transcription_after_inference env audio model language t se ws cs raw lo Hm Ha Ht).
  destruct (alignment_outcome env) as [a|e]; [done|].
  destruct (is_Exception e) eqn:He; [done|]. simpl. by rewrite He.
Qed.

Lemma unwinds_main_try_body (env : Env) (d temp : string) :
  unwinds (main_try_body env d temp).
Proof.
  unfold main_try_body.
  apply unwinds_bind;
    [apply inv_unwinds, frame_print, on_terminal_write_to|intros _].
  apply unwinds_bind;
    [apply inv_unwinds, frame_print, on_terminal_write_to|intros _].
  apply unwinds_bind;
    [apply inv_unwinds, frame_main_prepare_audio;
       [apply on_terminal_write_to|apply on_terminal_log_call]|intros audio].
  apply unwinds_bind;
    [apply inv_unwinds, frame_get_duration_ffprobe, on_terminal_log_call|intros ad].
  cbv zeta.
  apply unwinds_bind; [apply unwinds_run_transcription|intros r].
  apply inv_unwinds, frame_main_export; [apply on_terminal_write_to|apply on_terminal_log_call].
Qed.

(** The processing section once the [try] block has raised an
    [Exception] with [sys.stdout] on the terminal. *)
Lemma main_processing_after_exception (env : Env) (duration_str : string) t se ws cs
    (msg : string) t6 se6 ws6 cs6 :
  main_try_body env duration_str (temp_dir env)
    (mkWorld Terminal t se (Some (temp_dir env)) cs)
    = (Raise (PyException msg), mkWorld Terminal t6 se6 ws6 cs6) ->
  let r := main_processing env duration_str (mkWorld Terminal t se ws cs) in
  terminal (snd r) = t6 ++ [Text (LF +:+ LF +:+ "  FOUT: " +:+ msg); Text LF] /\
  stderr (snd r) = se6 ++ ["Traceback (most recent call last):"] /\
  calls (snd r) = cs6 ++ [CallRmtree (temp_dir env)] /\
  ((forall e, rmtree_result env = Raise e -> is_Exception e = true) -> fst r = Ret tt).
Proof.
  intros Hb. cbv zeta.
  unfold main_processing. rewrite step_set_workspace.
  unfold try_finally, try_except. rewrite Hb.
  cbn [main_handler]. rewrite step_print.
  unfold stderr_write. cbn [sys_stdout terminal stderr workspace calls snd fst].
  unfold main_cleanup, try_except, bind, log_call, on_Exception.
  cbn [sys_stdout terminal stderr workspace calls snd fst].
  destruct (rmtree_result env) as [[]|e] eqn:Hr; simpl.
  - done.
  - destruct (is_Exception e) eqn:He; simpl.
    + done.
    + split; [done|]. split; [done|]. split; [done|].
      intros H. specialize (H e eq_refl). congruence.
Qed.

(** X17. When a step of the [try] block of [main] raises an [Exception]
    with message [msg], the terminal is shown [FOUT: msg] after what it had
    been shown before, a traceback goes to [sys.stderr], the temporary
    directory is cleaned up as the last call, and the processing section
    ends normally. *)
Theorem exceptions_are_reported (env : Env) (duration_str : string) t se ws cs
    (msg : string) :
  let b := main_try_body env duration_str (temp_dir env)
             (mkWorld Terminal t se (Some (temp_dir env)) cs) in
  let r := main_processing env duration_str (mkWorld Terminal t se ws cs) in
  fst b = Raise (PyException msg) ->
  terminal (snd r)
    = terminal (snd b) ++ [Text (LF +:+ LF +:+ "  FOUT: " +:+ msg); Text LF] /\
  stderr (snd r) = stderr (snd b) ++ ["Traceback (most recent call last):"] /\
  calls (snd r) = calls (snd b) ++ [CallRmtree (temp_dir env)] /\
  ((forall e, rmtree_result env = Raise e -> is_Exception e = true) -> fst r = Ret tt).
Proof.
  cbv zeta. intros Hb.
  pose proof (unwinds_main_try_body env duration_str (temp_dir env)
                (mkWorld Terminal t se (Some (temp_dir env)) cs) eq_refl) as Hu.
  destruct (main_try_body env duration_str (temp_dir env)
              (mkWorld Terminal t se (Some (temp_dir env)) cs))
    as [rb [so6 t6 se6 ws6 cs6]] eqn:E.
  simpl in Hb, Hu. subst rb. specialize (Hu eq_refl). unfold on_terminal in Hu.
  simpl in Hu. subst so6.
  exact (main_processing_after_exception env duration_str t se ws cs msg t6 se6 ws6 cs6 E).
Qed.

Lemma exceptions_are_reported_witness :
  let b := main_try_body inference_fails_run "01:00" (temp_dir inference_fails_run)
             (mkWorld Terminal [] [] (Some (temp_dir inference_fails_run)) []) in
  let r := main_processing inference_fails_run "01:00" (mkWorld Terminal [] [] None []) in
  terminal (snd r)
    = terminal (snd b) ++ [Text (LF +:+ LF +:+ "  FOUT: " +:+ "out of memory"); Text LF] /\
  stderr (snd r) = stderr (snd b) ++ ["Traceback (most recent call last):"] /\
  calls (snd r) = calls (snd b) ++ [CallRmtree (temp_dir inference_fails_run)] /\
  ((forall e, rmtree_result inference_fails_run = Raise e -> is_Exception e = true) ->
   fst r = Ret tt).
Proof.
  apply (exceptions_are_reported inference_fails_run "01:00" [] [] None [] "out of memory").
  by vm_compute.
Defined.

Lemma convert_video_to_audio_fails (env : Env) (video_path temp : string) t se ws cs :
  (forall e, ffprobe env video_path = Raise e -> is_Exception e = true) ->
  ffmpeg_returncode env <> 0 ->
  exists bars,
    convert_video_to_audio env video_path temp (mkWorld Terminal t se ws cs)
      = (Raise (PyException "ffmpeg video conversie mislukt"),
         mkWorld Terminal (t ++ bars) se ws
           (cs ++ [CallFfprobe video_path;
                   CallFfmpegConvert video_path
                     (path_join temp (file_stem env +:+ ".wav"))])).
Proof.
  intros Hprobe Hrc. unfold convert_video_to_audio.
  assert (E0 : exists d, get_duration_ffprobe env video_path (mkWorld Terminal t se ws cs)
                = (Ret d, mkWorld Terminal t se ws (cs ++ [CallFfprobe video_path]))).
  { rewrite get_duration_ffprobe_eq.
    destruct (ffprobe env video_path) as [d0|e] eqn:Hp; [by exists d0|].
    rewrite (Hprobe e eq_refl). by exists None. }
  destruct E0 as [d E0].
  erewrite bind_ret_eq by exact E0. cbv beta. rewrite step_log_call.
  destruct (convert_lines_bars d (ffmpeg_stderr env) t se ws
              ((cs ++ [CallFfprobe video_path])
                 ++ [CallFfmpegConvert video_path
                       (path_join temp (file_stem env +:+ ".wav"))])) as (bars & E & _ & _).
  erewrite bind_ret_eq by exact E. cbv beta.
  apply Z.eqb_neq in Hrc. rewrite Hrc. change (negb false) with true. cbv iota.
  erewrite bind_raise_eq by reflexivity.
  exists bars. by rewrite <-app_assoc.
Qed.

(** X18. A video conversion that exits with a status other than zero
    stops the run before any model is loaded: the only calls of the
    processing section are the duration probe, ffmpeg and the cleanup, the
    terminal is shown [FOUT: ffmpeg video conversie mislukt], and nothing is
    transcribed or exported. *)
Theorem failed_conversion_stops_the_run (env : Env) (duration_str : string) t se ws cs :
  is_video (file_suffix env) = true ->
  (forall e, ffprobe env (file_path env) = Raise e -> is_Exception e = true) ->
  ffmpeg_returncode env <> 0 ->
  (forall e, rmtree_result env = Raise e -> is_Exception e = true) ->
  let r := main_processing env duration_str (mkWorld Terminal t se ws cs) in
  fst r = Ret tt /\
  calls (snd r)
    = cs ++ [CallFfprobe (file_path env);
             CallFfmpegConvert (file_path env)
               (path_join (temp_dir env) (file_stem env +:+ ".wav"));
             CallRmtree (temp_dir env)] /\
  last (terminal (snd r)) = Some (Text LF) /\
  Text (LF +:+ LF +:+ "  FOUT: ffmpeg video conversie mislukt") ∈ terminal (snd r).
Proof.
  intros Hv Hprobe Hrc Hrm.
  destruct (convert_video_to_audio_fails env (file_path env) (temp_dir env)
              (((t ++ [Text "Verwerking gestart..."; Text LF]) ++ [Text ""; Text LF])
                 ++ [Text "  Video gedetecteerd, audio extraheren..."; Text LF])
              se (Some (temp_dir env)) cs Hprobe Hrc) as [bars Hconv].
  assert (Hb : main_try_body env duration_str (temp_dir env)
                 (mkWorld Terminal t se (Some (temp_dir env)) cs)
               = (Raise (PyException "ffmpeg video conversie mislukt"),
                  mkWorld Terminal
                    ((((t ++ [Text "Verwerking gestart..."; Text LF]) ++ [Text ""; Text LF])
                        ++ [Text "  Video gedetecteerd, audio extraheren..."; Text LF])
                       ++ bars)
                    se (Some (temp_dir env))
                    (cs ++ [CallFfprobe (file_path env);
                            CallFfmpegConvert (file_path env)
                              (path_join (temp_dir env) (file_stem env +:+ ".wav"))]))).
  { unfold main_try_body. rewrite !step_print.
    erewrite bind_raise_eq; [reflexivity|].
    unfold main_prepare_audio. rewrite Hv.
    erewrite bind_raise_eq; [reflexivity|].
    rewrite step_print. exact Hconv. }
  destruct (main_processing_after_exception env duration_str t se ws cs _ _ _ _ _ Hb)
    as (Ht & _ & Hc & Hr).
  cbv zeta. split; [by apply Hr|]. split; [|split].
  - rewrite Hc, <-app_assoc. reflexivity.
  - rewrite Ht.
    match goal with
    | |- last (?l ++ [?a; ?b]) = _ =>
        replace (l ++ [a; b]) with ((l ++ [a]) ++ [b]) by (by rewrite <-app_assoc)
    end.
    apply last_snoc.
  - rewrite Ht. apply elem_of_app. right. apply list_elem_of_here.
Qed.

Lemma failed_conversion_stops_the_run_witness :
  let r := main_processing conversion_fails_run "01:00" (mkWorld Terminal [] [] None []) in
  fst r = Ret tt /\
  calls (snd r)
    = [] ++ [CallFfprobe (file_path conversion_fails_run);
             CallFfmpegConvert (file_path conversion_fails_run)
               (path_join (temp_dir conversion_fails_run)
                  (file_stem conversion_fails_run +:+ ".wav"));
             CallRmtree (temp_dir conversion_fails_run)] /\
  last (terminal (snd r)) = Some (Text LF) /\
  Text (LF +:+ LF +:+ "  FOUT: ffmpeg video conversie mislukt") ∈ terminal (snd r).
Proof.
  apply (failed_conversion_stops_the_run conversion_fails_run "01:00" [] [] None []).
  - reflexivity.
  - intros e H. vm_compute in H. discriminate H.
  - vm_compute. discriminate.
  - intros e H. vm_compute in H. discriminate H.
Defined.

(** ** The compatibility patches *)

(** X19. The patched [hf_hub_download] calls the original with the same
    positional arguments and never with [use_auth_token]: a value given
    under that name arrives as [token], replacing a [token] given next to
    it; without it [token] is what the caller gave; every other keyword is
    passed on unchanged, and patching twice changes nothing more. *)
Theorem hf_patch_renames_auth_token {R : Type}
    (original : list pyval -> gmap string pyval -> R)
    (args : list pyval) (kwargs : gmap string pyval) :
  exists passed,
    hf_patched original args kwargs = original args passed /\
    passed !! "use_auth_token" = None /\
    passed !! "token" = match kwargs !! "use_auth_token" with
                        | Some v => Some v
                        | None => kwargs !! "token"
                        end /\
    (forall k, k <> "token" -> k <> "use_auth_token" -> passed !! k = kwargs !! k) /\
    hf_patched_kwargs passed = passed.
Proof.
  exists (hf_patched_kwargs kwargs). split; [reflexivity|].
  destruct (kwargs !! "use_auth_token") as [v|] eqn:Hk.
  - assert (E : hf_patched_kwargs kwargs
                = <["token" := v]> (delete "use_auth_token" kwargs))
      by (unfold hf_patched_kwargs; by rewrite Hk).
    rewrite E.
    assert (Hnone : <["token" := v]> (delete "use_auth_token" kwargs) !! "use_auth_token"
                    = None).
    { rewrite lookup_insert_ne by done. apply lookup_delete_eq. }
    split; [exact Hnone|]. split; [apply lookup_insert_eq|]. split.
    + intros k H1 H2. rewrite lookup_insert_ne by done. by rewrite lookup_delete_ne.
    + unfold hf_patched_kwargs. by rewrite Hnone.
  - assert (E : hf_patched_kwargs kwargs = kwargs)
      by (unfold hf_patched_kwargs; by rewrite Hk).
    rewrite E. split; [exact Hk|]. split; [done|]. split; [done|exact E].
Qed.

(** X20. The patched [torch.load] calls the original with the same
    positional arguments and always with a [weights_only] that is not
    [None]: [False] when the caller gave none or gave [None], the caller's
    value otherwise; every other keyword is passed on unchanged. *)
Theorem torch_patch_defaults_weights_only {R : Type}
    (original : list pyval -> gmap string pyval -> R)
    (args : list pyval) (kwargs : gmap string pyval) :
  exists passed,
    torch_patched_load original args kwargs = original args passed /\
    passed !! "weights_only"
      = Some (match kwargs !! "weights_only" with
              | None | Some PyNone => PyBool false
              | Some v => v
              end) /\
    passed !! "weights_only" <> Some PyNone /\
    (forall k, k <> "weights_only" -> passed !! k = kwargs !! k) /\
    torch_patched_kwargs passed = passed.
Proof.
  exists (torch_patched_kwargs kwargs). split; [reflexivity|].
  assert (H : torch_patched_kwargs kwargs !! "weights_only"
              = Some (match kwargs !! "weights_only" with
                      | None | Some PyNone => PyBool false
                      | Some v => v
                      end)).
  { unfold torch_patched_kwargs.
    destruct (kwargs !! "weights_only") as [[]|] eqn:Hk;
      first [apply lookup_insert_eq|exact Hk]. }
  split; [exact H|]. split; [|split].
  - rewrite H. by destruct (kwargs !! "weights_only") as [[]|].
  - intros k Hne. unfold torch_patched_kwargs.
    destruct (kwargs !! "weights_only") as [[]|];
      first [by rewrite lookup_insert_ne|done].
  - unfold torch_patched_kwargs at 1. rewrite H.
    by destruct (kwargs !! "weights_only") as [[]|].
Qed.

(** ** An interrupt before the alignment *)

Lemma run_transcription_fails_on_terminal (env : Env) (audio model language : string)
    t se ws cs (e : exn) :
  load_model env = Raise e \/
  (load_model env = Ret tt /\ load_audio env = Raise e) \/
  (load_model env = Ret tt /\ load_audio env = Ret tt /\
   ext_result (transcribe env) = Raise e) ->
  exists t' made,
    run_transcription env audio model language (mkWorld Terminal t se ws cs)
      = (Raise e, mkWorld Terminal t' se ws (cs ++ made)) /\
    Forall (fun c => is_inference_call c = true) made.
Proof.
  intros [Hm|[[Hm Ha]|(Hm & Ha & Ht)]].
  - rewrite (run_transcription_load_model_fails env audio model language t se ws cs e Hm).
    eexists _, _. split; [reflexivity|by repeat constructor].
  - rewrite (run_transcription_load_audio_fails env audio model language t se ws cs e Hm Ha).
    eexists _, _. split; [reflexivity|by repeat constructor].
  - rewrite (run_transcription_inference_fails env audio model language t se ws cs e Hm Ha Ht).
    eexists _, _. split; [reflexivity|by repeat constructor].
Qed.

Lemma inference_calls_are_no_exports (made : list call) :
  Forall (fun c => is_inference_call c = true) made ->
  filter (fun c => is_export c = true) made = [].
Proof.
  induction 1 as [|c made Hc _ IH]; [done|].
  rewrite filter_cons_False; [exact IH|]. by destruct c.
Qed.

(** X21. When the user interrupts the model load, the audio load or the
    inference, and the steps before them succeeded, [main] shows
    [Afgebroken door gebruiker.] as the last line on the terminal, leaves
    [sys.stdout] bound to the terminal, exports nothing, cleans up and ends
    normally. *)
Theorem interrupted_inference_is_reported (env : Env) (duration_str : string)
    t se ws cs :
  preprocessing_succeeds env ->
  load_model env = Raise PyKeyboardInterrupt \/
  (load_model env = Ret tt /\ load_audio env = Raise PyKeyboardInterrupt) \/
  (load_model env = Ret tt /\ load_audio env = Ret tt /\
   ext_result (transcribe env) = Raise PyKeyboardInterrupt) ->
  (forall e, rmtree_result env = Raise e -> is_Exception e = true) ->
  let r := main_processing env duration_str (mkWorld Terminal t se ws cs) in
  fst r = Ret tt /\
  sys_stdout (snd r) = Terminal /\
  (exists shown,
     terminal (snd r)
       = shown ++ [Text (LF +:+ LF +:+ "  Afgebroken door gebruiker."); Text LF]) /\
  calls_where is_export (snd r) = filter (fun c => is_export c = true) cs /\
  last (calls (snd r)) = Some (CallRmtree (temp_dir env)).
Proof.
  intros Hpre Hfail Hrm. cbv zeta.
  unfold main_processing. rewrite step_set_workspace.
  unfold try_finally, try_except.
  (* the try block up to the transcription *)
  unfold main_try_body. rewrite !step_print.
  destruct (main_prepare_audio_ok env (temp_dir env)
              ((t ++ [Text "Verwerking gestart..."; Text LF]) ++ [Text ""; Text LF])
              se (Some (temp_dir env)) cs Hpre) as (audio & t1 & cs1 & Hprep).
  assert (Hx1 : filter (fun c => is_export c = true) cs1
                = filter (fun c => is_export c = true) cs).
  { pose proof (exports_main_prepare_audio (filter (fun c => is_export c = true) cs)
                  env (temp_dir env)
                  (mkWorld Terminal
                     ((t ++ [Text "Verwerking gestart..."; Text LF]) ++ [Text ""; Text LF])
                     se (Some (temp_dir env)) cs) eq_refl) as H.
    by rewrite Hprep in H. }
  erewrite bind_ret_eq by exact Hprep. cbv beta.
  destruct (get_duration_ffprobe_ok env audio Terminal t1 se (Some (temp_dir env)) cs1 Hpre)
    as [ad Hprobe].
  erewrite bind_ret_eq by exact Hprobe. cbv beta zeta.
  destruct (run_transcription_fails_on_terminal env audio (model_size env)
              (language_code env) t1 se (Some (temp_dir env)) (cs1 ++ [CallFfprobe audio])
              PyKeyboardInterrupt Hfail) as (t2 & made & Hrun & Hmade).
  erewrite bind_raise_eq by exact Hrun.
  (* the handler and the cleanup *)
  cbn [main_handler]. rewrite print_eq. cbn [stream_write].
  unfold main_cleanup, try_except, bind, log_call, on_Exception.
  cbn [sys_stdout terminal stderr workspace calls snd fst].
  assert (Hcalls : filter (fun c => is_export c = true)
                     (((cs1 ++ [CallFfprobe audio]) ++ made) ++ [CallRmtree (temp_dir env)])
                   = filter (fun c => is_export c = true) cs).
  { rewrite !filter_app, (inference_calls_are_no_exports made Hmade), Hx1.
    rewrite !filter_cons_False by (simpl; congruence). by rewrite filter_nil, !app_nil_r. }
  destruct (rmtree_result env) as [[]|e] eqn:Hr.
  - simpl. split; [done|]. split; [done|]. split; [|split; [exact Hcalls|apply last_snoc]].
    exists t2. by rewrite <-app_assoc.
  - simpl. rewrite (Hrm e eq_refl). simpl.
    split; [done|]. split; [done|]. split; [|split; [exact Hcalls|apply last_snoc]].
    exists t2. by rewrite <-app_assoc.
Qed.

Lemma interrupted_inference_is_reported_witness :
  let r := main_processing inference_interrupted_run "01:00" (mkWorld Terminal [] [] None []) in
  fst r = Ret tt /\
  sys_stdout (snd r) = Terminal /\
  (exists shown,
     terminal (snd r)
       = shown ++ [Text (LF +:+ LF +:+ "  Afgebroken door gebruiker."); Text LF]) /\
  calls_where is_export (snd r) = filter (fun c => is_export c = true) [] /\
  last (calls (snd r)) = Some (CallRmtree (temp_dir inference_interrupted_run)).
Proof.
  apply (interrupted_inference_is_reported inference_interrupted_run "01:00" [] [] None []).
  - split; [|split].
    + intros p e H. vm_compute in H. discriminate H.
    + intros _. reflexivity.
    + intros p _. reflexivity.
  - right. right. by vm_compute.
  - intros e H. vm_compute in H. discriminate H.
Defined.
